(** * paste-pouch-backend: the request handlers and the rate limiter of main.ts

    A shallow embedding of [src/main.ts]: identifier generation, the
    user validator, the four route handlers, the rate-limiting middleware
    and the middleware stack of the application, together with the
    properties of the specification that concern them.

    Conventions.
    - JavaScript numbers that hold counters and millisecond clock readings
      are integers far below 2^53 and are modelled as [Z].
    - The relational store is an explicit state ([Db]); every statement that
      is sent to it is appended to a trace, so that "which store operations
      did this request issue" is a property of the final state.
    - A statement can fail for a reason outside the program (the store is
      unreachable).  That is an input: the list [link] gives, statement by
      statement, whether the store is reached.
    - Text is a [string] read as a sequence of characters, one [ascii] per
      character (the characters with a code below 256); [String.length] is
      its number of characters. *)

From Stdlib Require Import ZArith Ascii String List Lia Bool.
From stdpp Require Import base option list gmap strings.
Import ListNotations.

Local Open Scope Z_scope.

(** ** JavaScript values that reach the handlers *)

Module Js.

(** The values a field of the JSON body or a route parameter is typed
    with in the source ([string | null], [string | undefined]). *)
Inductive Value :=
| Undefined
| Null
| Str (s : string).

(** ToBoolean: [undefined], [null] and the empty string are falsy. *)
Definition truthy (v : Value) : bool :=
  match v with
  | Undefined | Null => false
  | Str s => negb (String.eqb s "")
  end.

(** [typeof v != "string"] *)
Definition not_string (v : Value) : bool :=
  match v with
  | Str _ => false
  | _ => true
  end.

(** Narrowing of a value that a guard has shown to be a string. *)
Definition as_string (v : Value) : string :=
  match v with
  | Str s => s
  | _ => EmptyString
  end.

(** A promise object, as a call of an [async] function returns it when it
    is not awaited.  Whatever it will resolve to, the object itself is
    truthy. *)
Inductive Promise (A : Type) := Pending (eventually : A).
Arguments Pending {A} eventually.

Definition promise_truthy {A} (p : Promise A) : bool := true.

End Js.

(** ** Strings *)

(** Every character of [s] satisfies [p]. *)
Fixpoint all_chars (p : ascii -> bool) (s : string) : bool :=
  match s with
  | EmptyString => true
  | String c r => p c && all_chars p r
  end.

(** [c] occurs in [s]. *)
Fixpoint member (c : ascii) (s : string) : bool :=
  match s with
  | EmptyString => false
  | String d r => Ascii.eqb c d || member c r
  end.

(** ** Identifier generation *)

Module Nanoid.

(** [customAlphabet] of the nanoid package (an imported library, line 2 of
    main.ts).  It draws random bytes in batches of [step], walks each batch
    from its last byte to its first, keeps a byte when [byte & mask] indexes
    a symbol of the alphabet (an index past the alphabet contributes the
    empty string), and returns as soon as the identifier has [size]
    characters.  The random source is an input: the list of batches that
    successive calls of the generator's [getRandom] return. *)

(** [(2 << (31 - Math.clz32((alphabet.length - 1) | 1))) - 1] *)
Definition mask (alphabet : string) : Z :=
  Z.shiftl 2 (Z.log2 (Z.lor (Z.of_nat (String.length alphabet) - 1) 1)) - 1.

(** [Math.ceil((1.6 * mask * size) / alphabet.length)] *)
Definition step (alphabet : string) (size : nat) : nat :=
  Z.to_nat ((16 * mask alphabet * Z.of_nat size
             + 10 * Z.of_nat (String.length alphabet) - 1)
            / (10 * Z.of_nat (String.length alphabet))).

(** [alphabet[k] || ''] *)
Definition symbol (alphabet : string) (k : Z) : string :=
  match String.get (Z.to_nat k) alphabet with
  | Some c => String c EmptyString
  | None => EmptyString
  end.

(** The inner loop [while (i--) { id += ...; if (id.length >= size) return id }].
    The boolean tells whether the loop returned. *)
Fixpoint fill (alphabet : string) (size : nat) (bytes : list Z) (i : nat)
         (id : string) : string * bool :=
  match i with
  | O => (id, false)
  | S j =>
      let id' := id +:+ symbol alphabet (Z.land (nth j bytes 0) (mask alphabet)) in
      if (size <=? String.length id')%nat then (id', true)
      else fill alphabet size bytes j id'
  end.

(** The outer loop [while (true)], one iteration per batch of the random
    source; [None] when the source is used up before the identifier is
    complete. *)
Fixpoint generate (alphabet : string) (size : nat) (batches : list (list Z))
         (id : string) : option string :=
  match batches with
  | [] => None
  | bytes :: rest =>
      match fill alphabet size bytes (step alphabet size) id with
      | (id', true) => Some id'
      | (id', false) => generate alphabet size rest id'
      end
  end.

Definition customAlphabet (alphabet : string) (size : nat)
  : list (list Z) -> option string :=
  fun batches => generate alphabet size batches EmptyString.

End Nanoid.

Definition ALPHABET : string := "0123456789ABCDEFGHIJKLMNOPQRSTUVWXYZ".

(** [function generateId(): string] *)
Definition generateId (random : list (list Z)) : option string :=
  let nanoid := Nanoid.customAlphabet ALPHABET 16 in
  let id := nanoid random in
  id.

(** A decimal digit or an uppercase Latin letter. *)
Definition digit_or_upper (c : ascii) : bool :=
  let n := nat_of_ascii c in
  ((48 <=? n) && (n <=? 57) || (65 <=? n) && (n <=? 90))%nat.


(** ** The relational store *)

Module Store.

(** Rows of the two tables created at start-up (lines 14-29):
    [users(id CHARACTER(16) PRIMARY KEY, timestamp TIMESTAMP NOT NULL)] and
    [pastes(id CHARACTER(16) PRIMARY KEY, content TEXT NOT NULL,
            format VARCHAR(64) NOT NULL, timestamp TIMESTAMP NOT NULL,
            userid CHARACTER(16) REFERENCES users(id))]. *)
Record UserRow := { u_id : string; u_timestamp : Z }.

Record PasteRow := {
  p_id : string;
  p_content : string;
  p_format : string;
  p_timestamp : Z;
  p_userid : option string
}.

Record Db := { users : list UserRow; pastes : list PasteRow }.

(** The six statements of main.ts, with their parameters. *)
Inductive Query :=
| InsertUser (id : string) (timestamp : Z)
| InsertPaste (id : string) (content format : Js.Value) (timestamp : Z)
| InsertPasteOwned (id : string) (content format : Js.Value)
                   (userid : string) (timestamp : Z)
| SelectUser (id : string)
| SelectPaste (id : string)
| SelectPastesOf (userid : string).

Inductive Error :=
| Unreachable
| UndefinedParameter
| NotNullViolation
| ValueTooLong
| InvalidByteSequence
| UniqueViolation
| ForeignKeyViolation.

(** What a statement resolves to: the array of result rows. *)
Inductive Result :=
| Done
| Users (rows : list UserRow)
| Pastes (rows : list PasteRow).

Definition result_length (r : Result) : Z :=
  match r with
  | Done => 0
  | Users rows => Z.of_nat (length rows)
  | Pastes rows => Z.of_nat (length rows)
  end.

(** *** Values of the column types *)

(** The value without its trailing blanks. *)
Fixpoint rtrim (s : string) : string :=
  match s with
  | EmptyString => EmptyString
  | String c r =>
      match rtrim r with
      | EmptyString => if Ascii.eqb c " " then EmptyString else String c EmptyString
      | r' => String c r'
      end
  end.

(** Equality of two CHARACTER values: trailing blanks do not count. *)
Definition same_id (a b : string) : bool := String.eqb (rtrim a) (rtrim b).

Fixpoint take (n : nat) (s : string) : string :=
  match n, s with
  | S m, String c r => String c (take m r)
  | _, _ => EmptyString
  end.

Fixpoint drop (n : nat) (s : string) : string :=
  match n, s with
  | S m, String _ r => drop m r
  | _, _ => s
  end.

Fixpoint blanks (n : nat) : string :=
  match n with
  | O => EmptyString
  | S m => String " " (blanks m)
  end.

(** Nothing but blanks. *)
Definition blank (s : string) : bool := all_chars (Ascii.eqb " ") s.

(** No NUL character: the store refuses a text value that has one. *)
Definition clean (s : string) : bool := negb (member Ascii.zero s).

(** What a VARCHAR(n) column stores for a value: the value when it has at
    most [n] characters, its first [n] characters when the excess is blanks,
    and nothing (the value is refused) otherwise. *)
Definition varchar (n : nat) (s : string) : option string :=
  if (String.length s <=? n)%nat then Some s
  else if blank (drop n s) then Some (take n s)
  else None.

(** What a CHARACTER(n) column stores for a value: the value padded with
    blanks to [n] characters, its first [n] characters when the excess is
    blanks, and nothing otherwise. *)
Definition character (n : nat) (s : string) : option string :=
  if (String.length s <=? n)%nat then Some (s +:+ blanks (n - String.length s))
  else if blank (drop n s) then Some (take n s)
  else None.

(** *** Statements *)

(** A row of [users] carries the identifier. *)
Definition has_user (id : string) (d : Db) : bool :=
  existsb (fun u => same_id (u_id u) id) (users d).

(** A row of [pastes] carries the identifier. *)
Definition has_paste (id : string) (d : Db) : bool :=
  existsb (fun p => same_id (p_id p) id) (pastes d).

(** A parameter bound to a NOT NULL text column: the driver refuses
    [undefined], the column refuses [null], the store refuses a NUL
    character. *)
Definition text_param (v : Js.Value) : Error + string :=
  match v with
  | Js.Undefined => inl UndefinedParameter
  | Js.Null => inl NotNullViolation
  | Js.Str s => if clean s then inr s else inl InvalidByteSequence
  end.

(** A string parameter bound to a CHARACTER(16) column. *)
Definition id_param (s : string) : Error + string :=
  if clean s then
    match character 16 s with
    | Some stored => inr stored
    | None => inl ValueTooLong
    end
  else inl InvalidByteSequence.

Definition insert_paste (id : string) (content format : Js.Value)
           (userid : option string) (timestamp : Z) (d : Db) : Error + Db :=
  match text_param content, text_param format with
  | inl e, _ => inl e
  | _, inl e => inl e
  | inr c, inr f =>
      match id_param id, varchar 64 f with
      | inl e, _ => inl e
      | _, None => inl ValueTooLong
      | inr i, Some f' =>
          if has_paste i d then inl UniqueViolation
          else
            let row := {| p_id := i; p_content := c; p_format := f';
                          p_timestamp := timestamp; p_userid := userid |} in
            inr {| users := users d; pastes := pastes d ++ [row] |}
      end
  end.

(** The effect of a statement on a store that is reached.  The INSERTs
    follow the column types and constraints of the two tables; the SELECTs
    compare CHARACTER values, and a SELECT that reaches the store is taken
    to succeed. *)
Definition exec (q : Query) (d : Db) : Error + (Result * Db) :=
  match q with
  | InsertUser id timestamp =>
      match id_param id with
      | inl e => inl e
      | inr i =>
          if has_user i d then inl UniqueViolation
          else inr (Done, {| users := users d ++ [{| u_id := i; u_timestamp := timestamp |}];
                             pastes := pastes d |})
      end
  | InsertPaste id content format timestamp =>
      match insert_paste id content format None timestamp d with
      | inl e => inl e
      | inr d' => inr (Done, d')
      end
  | InsertPasteOwned id content format userid timestamp =>
      match id_param userid with
      | inl e => inl e
      | inr o =>
          if negb (has_user o d) then inl ForeignKeyViolation
          else
            match insert_paste id content format (Some o) timestamp d with
            | inl e => inl e
            | inr d' => inr (Done, d')
            end
      end
  | SelectUser id =>
      inr (Users (List.filter (fun u => same_id (u_id u) id) (users d)), d)
  | SelectPaste id =>
      inr (Pastes (List.filter (fun p => same_id (p_id p) id) (pastes d)), d)
  | SelectPastesOf userid =>
      inr (Pastes (List.filter (fun p => match p_userid p with
                                    | Some o => same_id o userid
                                    | None => false
                                    end) (pastes d)), d)
  end.

End Store.

(** ** The state of the server process *)

(** What a [catch] block of a handler can receive. *)
Inductive Thrown :=
| StoreFailure (e : Store.Error)
| TypeError.

(** [interface ClientData] *)
Record ClientData := { count : Z; lastRequestTime : Z }.

Record World := {
  db : Store.Db;
  link : list bool;                      (* fate of the next statements *)
  trace : list Store.Query;              (* statements issued, oldest first *)
  console : list Thrown;                 (* console.error, oldest first *)
  rateLimitMap : gmap string ClientData
}.

Definition console_error (t : Thrown) (w : World) : World :=
  {| db := db w; link := link w; trace := trace w;
     console := console w ++ [t]; rateLimitMap := rateLimitMap w |}.

Definition set_rateLimitMap (m : gmap string ClientData) (w : World) : World :=
  {| db := db w; link := link w; trace := trace w;
     console := console w; rateLimitMap := m |}.

(** A statement sent through the [sql] tag: it is recorded, it consumes one
    entry of [link] (a store with no entry left is reached), and when the
    store is reached it is executed there. *)
Definition sql (q : Store.Query) (w : World) : (Store.Error + Store.Result) * World :=
  let issued d :=
    {| db := d; link := tl (link w); trace := trace w ++ [q];
       console := console w; rateLimitMap := rateLimitMap w |} in
  match link w with
  | false :: _ => (inl Store.Unreachable, issued (db w))
  | _ =>
      match Store.exec q (db w) with
      | inl e => (inl e, issued (db w))
      | inr (r, d') => (inr r, issued d')
      end
  end.

(** ** Requests and responses *)

Inductive Body :=
| NoBody
| Text (s : string)
| Rows (r : Store.Result).

(** [ctx.response]; [status] is [None] until a middleware assigns it. *)
Record Response := { status : option Z; body : Body }.

Definition unset : Response := {| status := None; body := NoBody |}.

Definition respond (code : Z) (b : Body) : Response :=
  {| status := Some code; body := b |}.

(** The parsed JSON body of a request: [null], or a value whose fields
    [content], [format] and [userid] are read (a missing field reads as
    [undefined]). *)
Inductive Json :=
| JsonNull
| Fields (content format userid : Js.Value).

Inductive Method := GET | HEAD | POST | PUT | DELETE | OPTIONS | PATCH.

Record Request := {
  ip : string;
  method : Method;
  path : list string;                    (* the segments of the URL path *)
  json : Json
}.

(** What a request reads from its environment: the random batches that
    [generateId] consumes and the reading of [Date.now()]. *)
Record Env := { random : list (list Z); now : Z }.

(** ** The user validator and the route handlers *)

(** [async function validateUser(id: string): Promise<boolean>] *)
Definition validateUser (id : string) (w : World) : bool * World :=
  match sql (Store.SelectUser id) w with
  | (inl _error, w') => (false, w')
  | (inr userExistsRes, w') =>
      if Store.result_length userExistsRes =? 0 then (false, w')
      else (true, w')
  end.

(** [router.get("/create-user", ...)] *)
Definition create_user (e : Env) (w : World) : option (Response * World) :=
  id ← generateId (random e);
  let timestamp := now e in
  match sql (Store.InsertUser id timestamp) w with
  | (inl error, w') =>
      Some (respond 400
              (Text "Couldn't create user for some reason, ask devs to check the logs"),
            console_error (StoreFailure error) w')
  | (inr _, w') => Some (respond 200 (Text id), w')
  end.

(** The [catch] block of the create-paste handler. *)
Definition create_paste_catch (error : Thrown) (w : World) : Response * World :=
  (respond 400
     (Text "Couldn't create paste for some reason, ask devs to check the logs"),
   console_error error w).

(** [router.post("/create-paste", ...)] *)
Definition create_paste (body : Json) (e : Env) (w : World)
  : option (Response * World) :=
  id ← generateId (random e);
  let timestamp := now e in
  match body with
  | JsonNull => Some (create_paste_catch TypeError w)
  | Fields content format userid =>
      if negb (Js.truthy userid) then
        match sql (Store.InsertPaste id content format timestamp) w with
        | (inl error, w') => Some (create_paste_catch (StoreFailure error) w')
        | (inr _, w') => Some (respond 200 (Text id), w')
        end
      else
        let '(valid, w1) := validateUser (Js.as_string userid) w in
        if negb valid then
          Some (respond 403 (Text "You are not authorized to make this paste."), w1)
        else
          match sql (Store.InsertPasteOwned id content format
                       (Js.as_string userid) timestamp) w1 with
          | (inl error, w') => Some (create_paste_catch (StoreFailure error) w')
          | (inr _, w') => Some (respond 200 (Text id), w')
          end
  end.

(** [router.get("/read-paste/:id", ...)] *)
Definition read_paste (id : Js.Value) (w : World) : Response * World :=
  if negb (Js.truthy id) || Js.not_string id then
    (respond 400 (Text "Must pass an id string"), w)
  else
    match sql (Store.SelectPaste (Js.as_string id)) w with
    | (inl error, w') =>
        (respond 403
           (Text "Couldn't execute read paste SQL for some reason, ask devs to check the logs"),
         console_error (StoreFailure error) w')
    | (inr pasteRes, w') =>
        if Store.result_length pasteRes =? 0 then
          (respond 404 (Text ("No paste with id " +:+ Js.as_string id +:+ " found")), w')
        else (respond 200 (Rows pasteRes), w')
    end.

(** [router.get("/read-pastes/:id", ...)].  [validateUser(id)] is called
    without [await]: its statement is issued, and what the guard tests is the
    promise object. *)
Definition read_pastes (id : Js.Value) (w : World) : Response * World :=
  if negb (Js.truthy id) || Js.not_string id then
    (respond 400 (Text "Must pass an id string"), w)
  else
    let '(valid, w1) := validateUser (Js.as_string id) w in
    if negb (Js.promise_truthy (Js.Pending valid)) then
      (respond 403 (Text "You are not authorized to read this profile"), w1)
    else
      match sql (Store.SelectPastesOf (Js.as_string id)) w1 with
      | (inl error, w') =>
          (respond 403
             (Text "Couldn't execute read paste SQL for some reason, ask devs to check the logs"),
           console_error (StoreFailure error) w')
      | (inr pasteRes, w') =>
          if Store.result_length pasteRes =? 0 then
            (respond 404 (Text ("No user with id " +:+ Js.as_string id +:+ " found")), w')
          else (respond 200 (Rows pasteRes), w')
      end.

(** ** Middleware *)

(** A middleware receives the request, the state it may change (the response
    under construction and the process state) and [next], the rest of the
    stack.  [None] is a request whose processing does not return. *)
Definition St : Type := Response * World.
Definition Next : Type := St -> option St.
Definition Middleware : Type := Request -> Env -> Next -> St -> option St.

Definition RATE_LIMIT_WINDOW : Z := 10 * 1000. (* milliseconds *)
Definition MAX_REQUESTS : Z := 10. (* max requests per rate limit window *)

(** [async function rateLimiter(ctx, next)] *)
Definition rateLimiter : Middleware := fun req e next '(response, w) =>
  let clientIp := ip req in
  let clientData := rateLimitMap w !! clientIp in
  let timestamp := now e in
  match clientData with
  | None =>
      let clientData := {| count := 1; lastRequestTime := timestamp |} in
      next (response, set_rateLimitMap (<[clientIp := clientData]> (rateLimitMap w)) w)
  | Some clientData =>
      if timestamp >? lastRequestTime clientData + RATE_LIMIT_WINDOW then
        let clientData := {| count := 1; lastRequestTime := timestamp |} in
        next (response, set_rateLimitMap (<[clientIp := clientData]> (rateLimitMap w)) w)
      else if count clientData >? MAX_REQUESTS then
        Some (respond 429 (Text "You're being rate limited. Try again later"), w)
      else
        let clientData := {| count := count clientData + 1;
                             lastRequestTime := lastRequestTime clientData |} in
        next (response, set_rateLimitMap (<[clientIp := clientData]> (rateLimitMap w)) w)
  end.

(** The routes registered on the router (lines 58, 78, 117, 149).  A route
    registered with [router.get] also answers HEAD.  The router matches with
    its default options: letter case does not count in the fixed segment,
    one trailing slash (a last, empty segment) is allowed, and a [:id]
    segment is never empty. *)
Inductive Route :=
| CreateUser
| CreatePaste
| ReadPaste (id : string)
| ReadPastes (id : string).

(** The character with an uppercase Latin letter replaced by its lowercase
    letter. *)
Definition lower_char (c : ascii) : ascii :=
  let n := nat_of_ascii c in
  if ((65 <=? n) && (n <=? 90))%nat then ascii_of_nat (n + 32) else c.

Fixpoint lower (s : string) : string :=
  match s with
  | EmptyString => EmptyString
  | String c r => String (lower_char c) (lower r)
  end.

(** The segments without one trailing empty segment. *)
Fixpoint strip_slash (segments : list string) : list string :=
  match segments with
  | [] => []
  | [last] => if String.eqb last "" then [] else [last]
  | seg :: rest => seg :: strip_slash rest
  end.

Definition is_get (m : Method) : bool :=
  match m with
  | GET | HEAD => true
  | _ => false
  end.

Definition is_post (m : Method) : bool :=
  match m with
  | POST => true
  | _ => false
  end.

Definition match_route (req : Request) : option Route :=
  match strip_slash (path req) with
  | [name] =>
      if is_get (method req) && String.eqb (lower name) "create-user"
      then Some CreateUser
      else if is_post (method req) && String.eqb (lower name) "create-paste"
      then Some CreatePaste
      else None
  | [name; id] =>
      if String.eqb id "" then None
      else if is_get (method req) && String.eqb (lower name) "read-paste"
      then Some (ReadPaste id)
      else if is_get (method req) && String.eqb (lower name) "read-pastes"
      then Some (ReadPastes id)
      else None
  | _ => None
  end.

(** The handler of a route.  None of the four handlers takes or calls
    [next]. *)
Definition handler (r : Route) (req : Request) (e : Env) (w : World)
  : option (Response * World) :=
  match r with
  | CreateUser => create_user e w
  | CreatePaste => create_paste (json req) e w
  | ReadPaste id => Some (read_paste (Js.Str id) w)
  | ReadPastes id => Some (read_pastes (Js.Str id) w)
  end.

(** [router.routes()]: a request that matches a route is given to the
    route's handler, whose return ends the processing of the request; a
    request that matches none is passed to [next]. *)
Definition routes : Middleware := fun req e next '(response, w) =>
  match match_route req with
  | Some r => handler r req e w
  | None => next (response, w)
  end.

Section Application.

(** [router.allowedMethods()] awaits the rest of the stack and then may
    complete the response of a request that no route answered (405, 501,
    the Allow header).  What it writes is left open: [allowed] is any
    function of the request and the response so far. *)
Variable allowed : Request -> Response -> Response.

Definition allowedMethods : Middleware := fun req e next st =>
  '(response, w) ← next st;
  Some (allowed req response, w).

(** The composition of a middleware stack: each middleware is called with
    the rest of the stack as its [next]. *)
Fixpoint compose (stack : list Middleware) (req : Request) (e : Env)
         (last : Next) : Next :=
  match stack with
  | [] => last
  | m :: rest => m req e (compose rest req e last)
  end.

(** [app.use(router.routes()); app.use(router.allowedMethods());
     app.use(rateLimiter);] in this order (lines 223-225). *)
Definition app (req : Request) (e : Env) (w : World) : option (Response * World) :=
  compose [routes; allowedMethods; rateLimiter] req e (fun st => Some st) (unset, w).

End Application.

(** ** The rate limiter as a state machine *)

(** Whether [rateLimiter] lets the request through: it does exactly when it
    calls [next]. *)
Definition lets_through (req : Request) (e : Env) (w : World) : bool :=
  match rateLimiter req e (fun _ => None) (unset, w) with
  | None => true
  | Some _ => false
  end.

(** The state in which [rateLimiter] leaves the process when nothing follows
    it in the stack. *)
Definition after_limiter (req : Request) (e : Env) (w : World) : World :=
  match rateLimiter req e (fun st => Some st) (unset, w) with
  | Some (_, w') => w'
  | None => w
  end.

(** A sequence of requests met by the limiter one after the other: the
    decisions, in order, and the final state. *)
Fixpoint limiter_run (reqs : list (Request * Env)) (w : World) : list bool * World :=
  match reqs with
  | [] => ([], w)
  | (req, e) :: rest =>
      let '(ds, w') := limiter_run rest (after_limiter req e w) in
      (lets_through req e w :: ds, w')
  end.

(** How many requests of the sequence the limiter lets through. *)
Definition passed (reqs : list (Request * Env)) (w : World) : nat :=
  length (List.filter (fun d => d) (fst (limiter_run reqs w))).

(** A request of client [k] at time [t], as the limiter sees it. *)
Definition hit (k : string) (t : Z) : Request * Env :=
  ({| ip := k; method := GET; path := []; json := JsonNull |},
   {| random := []; now := t |}).

(** A process that has just started, in front of an empty, reachable store. *)
Definition empty_world : World :=
  {| db := {| Store.users := []; Store.pastes := [] |}; link := []; trace := [];
     console := []; rateLimitMap := ∅ |}.

(** A request of client [k] that arrives no later than [deadline]. *)
Definition within (k : string) (deadline : Z) (r : Request * Env) : Prop :=
  ip (fst r) = k /\ now (snd r) <= deadline.

(** The number of further requests that a record lets through before its
    window ends. *)
Definition room (cd : ClientData) : nat := Z.to_nat (MAX_REQUESTS + 1 - count cd).

(** The state in which a request that opens a window leaves the process. *)
Definition fresh_window (req : Request) (e : Env) (w : World) : World :=
  set_rateLimitMap
    (<[ip req := {| count := 1; lastRequestTime := now e |}]> (rateLimitMap w)) w.

(** The request opens a window of its client: the client has no record, or
    the window of its record has ended. *)
Definition opens_window (r : Request * Env) (w : World) : Prop :=
  match rateLimitMap w !! ip (fst r) with
  | None => True
  | Some cd => now (snd r) > lastRequestTime cd + RATE_LIMIT_WINDOW
  end.

(** The message of the [catch] block of the two read handlers. *)
Definition read_failure : Body :=
  Text "Couldn't execute read paste SQL for some reason, ask devs to check the logs".

(** ** Vocabulary of the further properties *)

(** The request is one of client [k]. *)
Definition of_client (k : string) (r : Request * Env) : bool :=
  String.eqb (ip (fst r)) k.

(** Among the decisions [ds] taken on [reqs], those on the requests of
    client [k]. *)
Fixpoint decisions_of (k : string) (reqs : list (Request * Env)) (ds : list bool)
  : list bool :=
  match reqs, ds with
  | r :: reqs', d :: ds' =>
      if of_client k r then d :: decisions_of k reqs' ds'
      else decisions_of k reqs' ds'
  | _, _ => []
  end.

(** Every stored count lies between 1 and MAX_REQUESTS + 1. *)
Definition counts_bounded (m : gmap string ClientData) : Prop :=
  forall k cd, m !! k = Some cd -> 1 <= count cd <= MAX_REQUESTS + 1.

(** No two users and no two pastes share an identifier, identifiers being
    compared as CHARACTER values. *)
Definition unique_ids (d : Store.Db) : Prop :=
  NoDup (map (fun u => Store.rtrim (Store.u_id u)) (Store.users d))
  /\ NoDup (map (fun p => Store.rtrim (Store.p_id p)) (Store.pastes d)).

(** The owner of every owned paste is a row of [users]. *)
Definition owners_exist (d : Store.Db) : Prop :=
  Forall (fun p => match Store.p_userid p with
                   | Some o => Store.has_user o d = true
                   | None => True
                   end) (Store.pastes d).

(** Sixteen characters, each a digit or an uppercase letter. *)
Definition well_formed (id : string) : Prop :=
  String.length id = 16%nat /\ all_chars digit_or_upper id = true.

Definition ids_well_formed (d : Store.Db) : Prop :=
  Forall (fun u => well_formed (Store.u_id u)) (Store.users d)
  /\ Forall (fun p => well_formed (Store.p_id p)) (Store.pastes d).

(** [q] is an INSERT of a row whose identifier is [id]. *)
Definition inserts (id : string) (q : Store.Query) : Prop :=
  match q with
  | Store.InsertUser i _ | Store.InsertPaste i _ _ _
  | Store.InsertPasteOwned i _ _ _ _ => i = id
  | _ => False
  end.

(** * Properties *)

(** ** One step of the rate limiter *)

Section LimiterStep.

Variables (req : Request) (e : Env) (w : World).

Lemma rateLimiter_first next response :
  rateLimitMap w !! ip req = None ->
  rateLimiter req e next (response, w) = next (response, fresh_window req e w).
Proof. intros H. unfold rateLimiter. simpl. now rewrite H. Qed.

Lemma rateLimiter_expired next response cd :
  rateLimitMap w !! ip req = Some cd ->
  now e > lastRequestTime cd + RATE_LIMIT_WINDOW ->
  rateLimiter req e next (response, w) = next (response, fresh_window req e w).
Proof.
  intros H Ht. unfold rateLimiter. simpl. rewrite H.
  destruct (Z.gtb_spec (now e) (lastRequestTime cd + RATE_LIMIT_WINDOW)); [reflexivity | lia].
Qed.

Lemma rateLimiter_full next response cd :
  rateLimitMap w !! ip req = Some cd ->
  now e <= lastRequestTime cd + RATE_LIMIT_WINDOW ->
  count cd > MAX_REQUESTS ->
  rateLimiter req e next (response, w)
  = Some (respond 429 (Text "You're being rate limited. Try again later"), w).
Proof.
  intros H Ht Hc. unfold rateLimiter. simpl. rewrite H.
  destruct (Z.gtb_spec (now e) (lastRequestTime cd + RATE_LIMIT_WINDOW)); [lia |].
  destruct (Z.gtb_spec (count cd) MAX_REQUESTS); [reflexivity | lia].
Qed.

Lemma rateLimiter_room next response cd :
  rateLimitMap w !! ip req = Some cd ->
  now e <= lastRequestTime cd + RATE_LIMIT_WINDOW ->
  count cd <= MAX_REQUESTS ->
  rateLimiter req e next (response, w)
  = next (response,
          set_rateLimitMap
            (<[ip req := {| count := count cd + 1;
                            lastRequestTime := lastRequestTime cd |}]> (rateLimitMap w)) w).
Proof.
  intros H Ht Hc. unfold rateLimiter. simpl. rewrite H.
  destruct (Z.gtb_spec (now e) (lastRequestTime cd + RATE_LIMIT_WINDOW)); [lia |].
  destruct (Z.gtb_spec (count cd) MAX_REQUESTS); [lia | reflexivity].
Qed.

End LimiterStep.

(** C7: a request that arrives strictly later than the start of the client's
    window plus RATE_LIMIT_WINDOW is passed on to the rest of the stack
    (admitted), and the client's record is replaced by a count of 1 and a
    window that starts at the time of this request, whatever count the
    expired window had reached. *)
Theorem expired_window_resets (req : Request) (e : Env) (w : World) (cd : ClientData) :
  rateLimitMap w !! ip req = Some cd ->
  now e > lastRequestTime cd + RATE_LIMIT_WINDOW ->
  (forall next response,
      rateLimiter req e next (response, w)
      = next (response,
              set_rateLimitMap
                (<[ip req := {| count := 1; lastRequestTime := now e |}]> (rateLimitMap w)) w))
  /\ lets_through req e w = true
  /\ rateLimitMap (after_limiter req e w) !! ip req
     = Some {| count := 1; lastRequestTime := now e |}.
Proof.
  intros H Ht. split; [|split].
  - intros next response. now apply rateLimiter_expired with cd.
  - unfold lets_through. now rewrite (rateLimiter_expired _ _ _ _ _ cd H Ht).
  - unfold after_limiter. rewrite (rateLimiter_expired _ _ _ _ _ cd H Ht).
    simpl. apply lookup_insert_eq.
Qed.

Lemma expired_window_resets_witness :
  let w := set_rateLimitMap {["10.0.0.7" := {| count := 11; lastRequestTime := 500 |}]} empty_world in
  lets_through (fst (hit "10.0.0.7" 10501)) (snd (hit "10.0.0.7" 10501)) w = true
  /\ rateLimitMap (after_limiter (fst (hit "10.0.0.7" 10501)) (snd (hit "10.0.0.7" 10501)) w)
       !! "10.0.0.7" = Some {| count := 1; lastRequestTime := 10501 |}.
Proof.
  intros w.
  refine (proj2 (expired_window_resets (fst (hit "10.0.0.7" 10501))
                   (snd (hit "10.0.0.7" 10501)) w
                   {| count := 11; lastRequestTime := 500 |} _ _)).
  - reflexivity.
  - simpl. unfold RATE_LIMIT_WINDOW. lia.
Defined.

(** ** Runs of the rate limiter inside one window *)

Lemma limiter_run_cons req e rest w :
  limiter_run ((req, e) :: rest) w
  = (lets_through req e w :: fst (limiter_run rest (after_limiter req e w)),
     snd (limiter_run rest (after_limiter req e w))).
Proof. simpl. now destruct (limiter_run rest (after_limiter req e w)). Qed.

Lemma step_first req e w :
  rateLimitMap w !! ip req = None ->
  lets_through req e w = true
  /\ after_limiter req e w
     = set_rateLimitMap
         (<[ip req := {| count := 1; lastRequestTime := now e |}]> (rateLimitMap w)) w.
Proof.
  intros H. unfold lets_through, after_limiter.
  now rewrite !(rateLimiter_first _ _ _ _ _ H).
Qed.

Lemma step_full req e w cd :
  rateLimitMap w !! ip req = Some cd ->
  now e <= lastRequestTime cd + RATE_LIMIT_WINDOW ->
  count cd > MAX_REQUESTS ->
  lets_through req e w = false /\ after_limiter req e w = w.
Proof.
  intros H Ht Hc. unfold lets_through, after_limiter.
  now rewrite !(rateLimiter_full _ _ _ _ _ cd H Ht Hc).
Qed.

Lemma step_room req e w cd :
  rateLimitMap w !! ip req = Some cd ->
  now e <= lastRequestTime cd + RATE_LIMIT_WINDOW ->
  count cd <= MAX_REQUESTS ->
  lets_through req e w = true
  /\ after_limiter req e w
     = set_rateLimitMap
         (<[ip req := {| count := count cd + 1;
                         lastRequestTime := lastRequestTime cd |}]> (rateLimitMap w)) w.
Proof.
  intros H Ht Hc. unfold lets_through, after_limiter.
  now rewrite !(rateLimiter_room _ _ _ _ _ cd H Ht Hc).
Qed.

(** Inside the window of a record, the limiter lets the next [room] requests
    of the client through and rejects all later ones; the window start is
    kept and the count grows by the number of requests let through. *)
Lemma run_in_window (k : string) (reqs : list (Request * Env)) :
  forall (w : World) (cd : ClientData),
    rateLimitMap w !! k = Some cd ->
    Forall (within k (lastRequestTime cd + RATE_LIMIT_WINDOW)) reqs ->
    fst (limiter_run reqs w)
    = repeat true (Nat.min (length reqs) (room cd))
      ++ repeat false (length reqs - room cd)
    /\ rateLimitMap (snd (limiter_run reqs w)) !! k
       = Some {| count := count cd + Z.of_nat (Nat.min (length reqs) (room cd));
                 lastRequestTime := lastRequestTime cd |}.
Proof.
  induction reqs as [|[req e] rest IH]; intros w cd Hk Hall.
  - simpl. split; [reflexivity|]. rewrite Hk. destruct cd; simpl. f_equal. f_equal. lia.
  - apply Forall_cons in Hall as [[Hip Hnow] Hrest]. simpl in Hip, Hnow. subst k.
    rewrite limiter_run_cons. cbn [fst snd length].
    destruct (Z_gt_le_dec (count cd) MAX_REQUESTS) as [Hfull | Hroom].
    + destruct (step_full req e w cd Hk Hnow Hfull) as [-> ->].
      destruct (IH w cd Hk Hrest) as [IHd IHm].
      assert (Hr : room cd = 0%nat) by (unfold room; lia).
      rewrite Hr in *. rewrite IHd, IHm.
      rewrite !Nat.min_0_r, !Nat.sub_0_r. now split.
    + destruct (step_room req e w cd Hk Hnow Hroom) as [-> ->].
      set (cd' := {| count := count cd + 1; lastRequestTime := lastRequestTime cd |}).
      assert (Hk' : rateLimitMap (set_rateLimitMap (<[ip req := cd']> (rateLimitMap w)) w)
                      !! ip req = Some cd') by apply lookup_insert_eq.
      destruct (IH _ cd' Hk' Hrest) as [IHd IHm].
      assert (Hr : room cd = S (room cd')) by (unfold room, cd'; simpl; lia).
      rewrite Hr, IHd, IHm. simpl. split; [reflexivity|].
      f_equal. f_equal. lia.
Qed.

(** A run that starts with no record for the client: the first request
    opens the window. *)
Lemma run_from_first (k : string) first rest w :
  rateLimitMap w !! k = None ->
  ip (fst first) = k ->
  Forall (within k (now (snd first) + RATE_LIMIT_WINDOW)) rest ->
  fst (limiter_run (first :: rest) w)
  = repeat true (Nat.min (S (length rest)) 11)
    ++ repeat false (length rest - 10)
  /\ rateLimitMap (snd (limiter_run (first :: rest) w)) !! k
     = Some {| count := Z.of_nat (Nat.min (S (length rest)) 11);
               lastRequestTime := now (snd first) |}.
Proof.
  destruct first as [req e]. intros Hk Hip Hall. simpl in Hip, Hall. subst k.
  rewrite limiter_run_cons. cbn [fst snd].
  destruct (step_first req e w Hk) as [-> ->].
  set (cd := {| count := 1; lastRequestTime := now e |}).
  assert (Hk' : rateLimitMap (set_rateLimitMap (<[ip req := cd]> (rateLimitMap w)) w)
                  !! ip req = Some cd) by apply lookup_insert_eq.
  destruct (run_in_window (ip req) rest _ cd Hk' Hall) as [Hd Hm].
  assert (Hr : room cd = 10%nat) by reflexivity.
  rewrite Hr in *. rewrite Hd, Hm. split; [reflexivity|].
  simpl count. simpl lastRequestTime. f_equal. f_equal.
  destruct (Nat.min_spec (length rest) 10) as [[? ->] | [? ->]]; lia.
Qed.

Lemma count_decisions (a b : nat) :
  length (List.filter (fun d : bool => d) (repeat true a ++ repeat false b)) = a.
Proof.
  rewrite List.filter_app, length_app.
  assert (Ht : forall n, length (List.filter (fun d : bool => d) (repeat true n)) = n)
    by (induction n; simpl; congruence).
  assert (Hf : forall n, length (List.filter (fun d : bool => d) (repeat false n)) = 0%nat)
    by (induction n; simpl; congruence).
  rewrite Ht, Hf. lia.
Qed.

(** X7: in the branch that rejects, nothing is written: the response is the 429
    and the process state, the client's count included, is the one the
    request found. *)
Lemma rejection_keeps_the_record req e w :
  lets_through req e w = false ->
  after_limiter req e w = w
  /\ forall next response,
      rateLimiter req e next (response, w)
      = Some (respond 429 (Text "You're being rate limited. Try again later"), w).
Proof.
  unfold lets_through, after_limiter, rateLimiter. simpl.
  destruct (rateLimitMap w !! ip req) as [cd|]; [|discriminate].
  destruct (now e >? lastRequestTime cd + RATE_LIMIT_WINDOW); [discriminate|].
  destruct (count cd >? MAX_REQUESTS); [|discriminate].
  intros _. split; [reflexivity | intros; reflexivity].
Qed.

Lemma step_opening req e w :
  opens_window (req, e) w ->
  lets_through req e w = true /\ after_limiter req e w = fresh_window req e w.
Proof.
  unfold opens_window. cbn [fst snd].
  destruct (rateLimitMap w !! ip req) as [cd|] eqn:Hk; intros Ht;
    unfold lets_through, after_limiter.
  - now rewrite !(rateLimiter_expired req e w _ _ cd Hk Ht).
  - now rewrite !(rateLimiter_first req e w _ _ Hk).
Qed.

(** A run that starts with a request that opens a window, the client's first
    request or the first one after its window has ended. *)
Lemma run_from_opening (k : string) first rest w :
  opens_window first w ->
  ip (fst first) = k ->
  Forall (within k (now (snd first) + RATE_LIMIT_WINDOW)) rest ->
  fst (limiter_run (first :: rest) w)
  = repeat true (Nat.min (S (length rest)) 11)
    ++ repeat false (length rest - 10)
  /\ rateLimitMap (snd (limiter_run (first :: rest) w)) !! k
     = Some {| count := Z.of_nat (Nat.min (S (length rest)) 11);
               lastRequestTime := now (snd first) |}.
Proof.
  destruct first as [req e]. intros Hopen Hip Hall. simpl in Hip, Hall. subst k.
  rewrite limiter_run_cons. cbn [fst snd].
  destruct (step_opening req e w Hopen) as [-> ->]. unfold fresh_window.
  set (cd := {| count := 1; lastRequestTime := now e |}).
  assert (Hk' : rateLimitMap (set_rateLimitMap (<[ip req := cd]> (rateLimitMap w)) w)
                  !! ip req = Some cd) by apply lookup_insert_eq.
  destruct (run_in_window (ip req) rest _ cd Hk' Hall) as [Hd Hm].
  assert (Hr : room cd = 10%nat) by reflexivity.
  rewrite Hr in *. rewrite Hd, Hm. split; [reflexivity|].
  simpl count. simpl lastRequestTime. f_equal. f_equal.
  destruct (Nat.min_spec (length rest) 10) as [[? ->] | [? ->]]; lia.
Qed.

(** X6: a window never lets more than MAX_REQUESTS + 1 requests of a client
    through: from the request that opens it (the client's first request, or
    the first one after its previous window has ended), at most eleven of
    the requests that arrive before it ends are passed on. *)
Lemma window_passes_at_most_eleven (k : string) first rest w :
  opens_window first w ->
  ip (fst first) = k ->
  Forall (within k (now (snd first) + RATE_LIMIT_WINDOW)) rest ->
  (passed (first :: rest) w <= 11)%nat.
Proof.
  intros Hopen Hip Hall. unfold passed.
  destruct (run_from_opening k first rest w Hopen Hip Hall) as [-> _].
  rewrite count_decisions. lia.
Qed.

(** C1: the code at eleven requests of one client inside one window.  The
    first request opens the window and the ten that follow arrive before it
    ends: all eleven are let through, the eleventh (the one after
    MAX_REQUESTS) included, and the stored count is then 11. *)
Theorem eleventh_request_passes (k : string) first rest w :
  rateLimitMap w !! k = None ->
  ip (fst first) = k ->
  length rest = 10%nat ->
  Forall (within k (now (snd first) + RATE_LIMIT_WINDOW)) rest ->
  fst (limiter_run (first :: rest) w) = repeat true 11
  /\ rateLimitMap (snd (limiter_run (first :: rest) w)) !! k
     = Some {| count := MAX_REQUESTS + 1; lastRequestTime := now (snd first) |}.
Proof.
  intros Hk Hip Hlen Hall.
  destruct (run_from_first k first rest w Hk Hip Hall) as [Hd Hm].
  rewrite Hlen in Hd, Hm. split; [exact Hd | exact Hm].
Qed.

Lemma eleventh_request_passes_witness :
  fst (limiter_run (hit "10.0.0.7" 0 :: map (hit "10.0.0.7") [1; 2; 3; 4; 5; 6; 7; 8; 9; 10])
         empty_world) = repeat true 11
  /\ rateLimitMap
       (snd (limiter_run (hit "10.0.0.7" 0 :: map (hit "10.0.0.7") [1; 2; 3; 4; 5; 6; 7; 8; 9; 10])
               empty_world)) !! "10.0.0.7"
     = Some {| count := MAX_REQUESTS + 1; lastRequestTime := 0 |}.
Proof.
  apply (eleventh_request_passes "10.0.0.7" (hit "10.0.0.7" 0)
           (map (hit "10.0.0.7") [1; 2; 3; 4; 5; 6; 7; 8; 9; 10]) empty_world).
  - reflexivity.
  - reflexivity.
  - reflexivity.
  - repeat constructor; simpl; unfold RATE_LIMIT_WINDOW; lia.
Defined.

(** X8: the twelfth request of the window is the first one that is rejected. *)
Lemma twelfth_request_is_rejected (k : string) first rest w :
  rateLimitMap w !! k = None ->
  ip (fst first) = k ->
  length rest = 11%nat ->
  Forall (within k (now (snd first) + RATE_LIMIT_WINDOW)) rest ->
  fst (limiter_run (first :: rest) w) = repeat true 11 ++ [false].
Proof.
  intros Hk Hip Hlen Hall.
  destruct (run_from_first k first rest w Hk Hip Hall) as [Hd _].
  now rewrite Hlen in Hd.
Qed.

(** C4: the code at a burst of eleven requests of one client whose clock
    readings lie in one window of length RATE_LIMIT_WINDOW.  The body of
    [rateLimiter] has no suspension point before [await next()], so the
    process runs the bodies one after the other in some order [sched]; in
    every such order all eleven requests are let through, one more than
    MAX_REQUESTS. *)
Theorem burst_of_eleven_passes (k : string) (t0 : Z) (reqs sched : list (Request * Env)) w :
  rateLimitMap w !! k = None ->
  length reqs = 11%nat ->
  Forall (fun r => ip (fst r) = k /\ t0 <= now (snd r) <= t0 + RATE_LIMIT_WINDOW) reqs ->
  Permutation reqs sched ->
  passed sched w = 11%nat /\ Z.of_nat (passed sched w) > MAX_REQUESTS.
Proof.
  intros Hk Hlen Hall Hperm.
  assert (Hlen' : length sched = 11%nat) by (rewrite <- Hlen; symmetry; now apply Permutation_length).
  assert (Hall' : Forall (fun r => ip (fst r) = k /\ t0 <= now (snd r) <= t0 + RATE_LIMIT_WINDOW) sched)
    by (eapply Permutation_Forall; eassumption).
  destruct sched as [|first rest]; [discriminate|].
  apply Forall_cons in Hall' as [[Hip Hfirst] Hrest].
  assert (Hwin : Forall (within k (now (snd first) + RATE_LIMIT_WINDOW)) rest).
  { eapply List.Forall_impl; [|exact Hrest]. intros r [Hr Ht]. split; [exact Hr | lia]. }
  unfold passed.
  destruct (run_from_first k first rest w Hk Hip Hwin) as [-> _].
  rewrite count_decisions. simpl in Hlen'.
  assert (length rest = 10%nat) as -> by lia.
  split; [reflexivity | unfold MAX_REQUESTS; simpl; lia].
Qed.

Lemma burst_of_eleven_passes_witness :
  passed (rev (map (hit "10.0.0.7") [0; 0; 0; 1; 1; 2; 3; 5; 8; 13; 21])) empty_world = 11%nat
  /\ Z.of_nat (passed (rev (map (hit "10.0.0.7") [0; 0; 0; 1; 1; 2; 3; 5; 8; 13; 21]))
                 empty_world) > MAX_REQUESTS.
Proof.
  apply (burst_of_eleven_passes "10.0.0.7" 0
           (map (hit "10.0.0.7") [0; 0; 0; 1; 1; 2; 3; 5; 8; 13; 21])
           (rev (map (hit "10.0.0.7") [0; 0; 0; 1; 1; 2; 3; 5; 8; 13; 21])) empty_world).
  - reflexivity.
  - reflexivity.
  - repeat constructor; simpl; unfold RATE_LIMIT_WINDOW; lia.
  - apply Permutation_rev.
Defined.

(** ** Generated identifiers *)

Section StringFacts.

Lemma string_length_app (a b : string) :
  String.length (a +:+ b) = (String.length a + String.length b)%nat.
Proof. induction a as [|c a IH]; simpl; [reflexivity | now rewrite IH]. Qed.

Lemma all_chars_app p (a b : string) :
  all_chars p (a +:+ b) = all_chars p a && all_chars p b.
Proof.
  induction a as [|c a IH]; simpl; [reflexivity|].
  now rewrite IH, andb_assoc.
Qed.

Lemma all_chars_get p (s : string) (n : nat) (c : ascii) :
  all_chars p s = true -> String.get n s = Some c -> p c = true.
Proof.
  revert n. induction s as [|d s IH]; intros n Hall Hget; simpl in *.
  - discriminate.
  - apply andb_prop in Hall as [Hd Hs].
    destruct n as [|n].
    + injection Hget as <-. exact Hd.
    + eapply IH; eassumption.
Qed.

Lemma get_member (s : string) (n : nat) (c : ascii) :
  String.get n s = Some c -> member c s = true.
Proof.
  revert n. induction s as [|d s IH]; intros n Hget; simpl in *.
  - discriminate.
  - destruct n as [|n].
    + injection Hget as <-. now rewrite Ascii.eqb_refl.
    + rewrite (IH n Hget). apply orb_true_r.
Qed.


End StringFacts.

Section Generation.

Variables (alphabet : string) (size : nat) (p : ascii -> bool).
Hypothesis alphabet_ok : forall n c, String.get n alphabet = Some c -> p c = true.

Lemma symbol_ok k :
  all_chars p (Nanoid.symbol alphabet k) = true
  /\ (String.length (Nanoid.symbol alphabet k) <= 1)%nat.
Proof.
  unfold Nanoid.symbol.
  destruct (String.get (Z.to_nat k) alphabet) as [c|] eqn:Hget; simpl.
  - rewrite (alphabet_ok _ _ Hget). split; [reflexivity | lia].
  - split; [reflexivity | lia].
Qed.

(** The inner loop keeps the identifier inside the alphabet and returns
    exactly when the identifier has reached [size] characters. *)
Lemma fill_inv bytes i : forall id,
  (String.length id < size)%nat ->
  all_chars p id = true ->
  all_chars p (fst (Nanoid.fill alphabet size bytes i id)) = true
  /\ (snd (Nanoid.fill alphabet size bytes i id) = true ->
      String.length (fst (Nanoid.fill alphabet size bytes i id)) = size)
  /\ (snd (Nanoid.fill alphabet size bytes i id) = false ->
      (String.length (fst (Nanoid.fill alphabet size bytes i id)) < size)%nat).
Proof.
  induction i as [|j IH]; intros id Hlen Hall; simpl.
  - repeat split; [exact Hall | discriminate | intros _; exact Hlen].
  - set (sym := Nanoid.symbol alphabet (Z.land (nth j bytes 0) (Nanoid.mask alphabet))).
    destruct (symbol_ok (Z.land (nth j bytes 0) (Nanoid.mask alphabet))) as [Hs1 Hs2].
    fold sym in Hs1, Hs2.
    assert (Hall' : all_chars p (id +:+ sym) = true)
      by (rewrite all_chars_app, Hall, Hs1; reflexivity).
    assert (Hlen' : String.length (id +:+ sym) = (String.length id + String.length sym)%nat)
      by apply string_length_app.
    destruct (Nat.leb_spec size (String.length (id +:+ sym))) as [Hge | Hlt]; simpl.
    + repeat split; [exact Hall' | intros _; lia | discriminate].
    + apply IH; assumption.
Qed.

Lemma generate_inv batches : forall id r,
  (String.length id < size)%nat ->
  all_chars p id = true ->
  Nanoid.generate alphabet size batches id = Some r ->
  String.length r = size /\ all_chars p r = true.
Proof.
  induction batches as [|bytes rest IH]; intros id r Hlen Hall Hgen; simpl in Hgen.
  - discriminate.
  - destruct (fill_inv bytes (Nanoid.step alphabet size) id Hlen Hall) as (Ha & Ht & Hf).
    destruct (Nanoid.fill alphabet size bytes (Nanoid.step alphabet size) id)
      as [id' [|]]; simpl in *.
    + injection Hgen as <-. split; [now apply Ht | exact Ha].
    + apply (IH id' r); [now apply Hf | exact Ha | exact Hgen].
Qed.



End Generation.

(** The alphabet of [generateId]: 36 symbols, each a decimal digit or an
    uppercase Latin letter. *)
Lemma ALPHABET_symbols :
  String.length ALPHABET = 36%nat /\ all_chars digit_or_upper ALPHABET = true.
Proof. split; reflexivity. Qed.

(** Shape of a generated identifier, for the alphabet and the size that
    [generateId] passes to [customAlphabet]. *)
Lemma generated_id_shape (random : list (list Z)) (id : string) :
  generateId random = Some id ->
  String.length id = 16%nat
  /\ all_chars (fun c => member c ALPHABET) id = true
  /\ all_chars digit_or_upper id = true.
Proof.
  intros Hgen. unfold generateId, Nanoid.customAlphabet in Hgen.
  destruct (generate_inv ALPHABET 16 (fun c => member c ALPHABET)
              (get_member ALPHABET) random EmptyString id) as [Hlen Hmem];
    [simpl; lia | reflexivity | exact Hgen |].
  destruct (generate_inv ALPHABET 16 digit_or_upper
              (fun n c => all_chars_get digit_or_upper ALPHABET n c (proj2 ALPHABET_symbols))
              random EmptyString id) as [_ Hdig];
    [simpl; lia | reflexivity | exact Hgen |].
  repeat split; assumption.
Qed.

(** C9: an identifier that [generateId] returns has exactly 16 characters,
    and each of them is a symbol of the 36-symbol alphabet, that is a decimal
    digit or an uppercase Latin letter. *)
Theorem generateId_wellformed (random : list (list Z)) (id : string) :
  generateId random = Some id ->
  String.length id = 16%nat
  /\ String.length ALPHABET = 36%nat
  /\ all_chars (fun c => member c ALPHABET) id = true
  /\ all_chars digit_or_upper id = true.
Proof.
  intros Hgen. destruct (generated_id_shape random id Hgen) as (Hlen & Hmem & Hdig).
  repeat split; assumption.
Qed.

Lemma generateId_wellformed_witness :
  String.length "ZYXWVUTSRQPONMLK" = 16%nat
  /\ String.length ALPHABET = 36%nat
  /\ all_chars (fun c => member c ALPHABET) "ZYXWVUTSRQPONMLK" = true
  /\ all_chars digit_or_upper "ZYXWVUTSRQPONMLK" = true.
Proof.
  apply (generateId_wellformed [map Z.of_nat (seq 0 45)] "ZYXWVUTSRQPONMLK").
  vm_compute. reflexivity.
Defined.



(** ** Values of the column types *)

Lemma string_app_nil_r (s : string) : s +:+ EmptyString = s.
Proof.
  induction s as [|c s IH]; [reflexivity|].
  change (String c (s +:+ EmptyString) = String c s). now rewrite IH.
Qed.

Lemma string_app_cons (c : ascii) (a b : string) :
  String c a +:+ b = String c (a +:+ b).
Proof. reflexivity. Qed.

Lemma take_drop (n : nat) : forall s, Store.take n s +:+ Store.drop n s = s.
Proof.
  induction n as [|n IH]; intros [|c s]; simpl; try reflexivity.
  now rewrite string_app_cons, IH.
Qed.

Lemma rtrim_blank (r : string) : Store.blank r = true -> Store.rtrim r = EmptyString.
Proof.
  unfold Store.blank. induction r as [|c r IH]; [reflexivity|].
  cbn [all_chars Store.rtrim]. intros H. apply andb_prop in H as [Hc Hr].
  rewrite (IH Hr), Ascii.eqb_sym, Hc. reflexivity.
Qed.

(** Blanks at the end of a value do not change what it is compared as. *)
Lemma rtrim_app_blank (a r : string) :
  Store.blank r = true -> Store.rtrim (a +:+ r) = Store.rtrim a.
Proof.
  intros Hr. induction a as [|c a IH].
  - now apply rtrim_blank.
  - rewrite string_app_cons. cbn [Store.rtrim]. now rewrite IH.
Qed.

Lemma blank_blanks (n : nat) : Store.blank (Store.blanks n) = true.
Proof.
  unfold Store.blank. induction n as [|n IH]; [reflexivity|].
  cbn [Store.blanks all_chars]. now rewrite IH.
Qed.

(** What a CHARACTER column stores compares equal to the value given. *)
Lemma character_rtrim (n : nat) (s stored : string) :
  Store.character n s = Some stored -> Store.rtrim stored = Store.rtrim s.
Proof.
  unfold Store.character.
  destruct (String.length s <=? n)%nat.
  - intros [= <-]. apply rtrim_app_blank, blank_blanks.
  - destruct (Store.blank (Store.drop n s)) eqn:Hb; [|discriminate].
    intros [= <-]. rewrite <- (take_drop n s) at 2.
    symmetry. now apply rtrim_app_blank.
Qed.

Lemma character_exact (n : nat) (s : string) :
  String.length s = n -> Store.character n s = Some s.
Proof.
  intros <-. unfold Store.character. rewrite Nat.leb_refl, Nat.sub_diag. simpl.
  now rewrite string_app_nil_r.
Qed.

Lemma varchar_short (n : nat) (s : string) :
  (String.length s <= n)%nat -> Store.varchar n s = Some s.
Proof.
  intros H. unfold Store.varchar.
  destruct (Nat.leb_spec (String.length s) n); [reflexivity | lia].
Qed.

Lemma varchar_stores_short (n : nat) (s stored : string) :
  Store.varchar n s = Some stored -> (String.length s <= n)%nat -> stored = s.
Proof. intros H Hle. rewrite (varchar_short n s Hle) in H. now injection H. Qed.

Lemma same_id_refl (s : string) : Store.same_id s s = true.
Proof. unfold Store.same_id. apply String.eqb_refl. Qed.

Lemma same_id_character (n : nat) (s stored t : string) :
  Store.character n s = Some stored ->
  Store.same_id t stored = Store.same_id t s.
Proof. intros H. unfold Store.same_id. now rewrite (character_rtrim n s stored H). Qed.

Lemma has_user_character (n : nat) (s stored : string) d :
  Store.character n s = Some stored ->
  Store.has_user stored d = Store.has_user s d.
Proof.
  intros H. unfold Store.has_user.
  induction (Store.users d) as [|u l IH]; simpl; [reflexivity|].
  now rewrite IH, (same_id_character n s stored _ H).
Qed.

Lemma not_member (p : ascii -> bool) (c : ascii) (s : string) :
  all_chars p s = true -> p c = false -> member c s = false.
Proof.
  intros Hall Hc. induction s as [|d s IH]; simpl in *; [reflexivity|].
  apply andb_prop in Hall as [Hd Hs]. rewrite (IH Hs), orb_false_r.
  destruct (Ascii.eqb_spec c d) as [-> | _]; [congruence | reflexivity].
Qed.

(** A generated identifier is stored as it is. *)
Lemma id_param_generated random id :
  generateId random = Some id -> Store.id_param id = inr id.
Proof.
  intros H. destruct (generated_id_shape _ _ H) as (Hlen & _ & Hdig).
  unfold Store.id_param, Store.clean.
  rewrite (not_member digit_or_upper Ascii.zero id Hdig eq_refl). simpl.
  now rewrite (character_exact 16 id Hlen).
Qed.

(** ** Statements sent to the store *)

Lemma sql_frame q w :
  trace (snd (sql q w)) = trace w ++ [q]
  /\ link (snd (sql q w)) = tl (link w)
  /\ console (snd (sql q w)) = console w
  /\ rateLimitMap (snd (sql q w)) = rateLimitMap w.
Proof.
  unfold sql. destruct (link w) as [|[|] l];
    destruct (Store.exec q (db w)) as [err | [r d]]; simpl; auto.
Qed.

Lemma sql_unreachable q w l :
  link w = false :: l ->
  fst (sql q w) = inl Store.Unreachable /\ db (snd (sql q w)) = db w.
Proof. intros H. unfold sql. rewrite H. simpl. auto. Qed.

Lemma sql_reached q w :
  hd true (link w) = true ->
  sql q w
  = match Store.exec q (db w) with
    | inl err =>
        (inl err, {| db := db w; link := tl (link w); trace := trace w ++ [q];
                     console := console w; rateLimitMap := rateLimitMap w |})
    | inr (r, d') =>
        (inr r, {| db := d'; link := tl (link w); trace := trace w ++ [q];
                   console := console w; rateLimitMap := rateLimitMap w |})
    end.
Proof.
  intros H. unfold sql. destruct (link w) as [|[|] l]; simpl in *;
    [reflexivity | reflexivity | discriminate].
Qed.

(** What a statement does to the store: nothing when it fails, and the
    effect of [Store.exec] when it succeeds. *)
Lemma sql_cases q w :
  (exists err, fst (sql q w) = inl err /\ db (snd (sql q w)) = db w)
  \/ (exists res, fst (sql q w) = inr res
                  /\ hd true (link w) = true
                  /\ Store.exec q (db w) = inr (res, db (snd (sql q w)))).
Proof.
  unfold sql. destruct (link w) as [|[|] l]; simpl;
    try (left; eexists; split; reflexivity);
    destruct (Store.exec q (db w)) as [err | [res d']]; simpl;
    try (left; eexists; split; reflexivity);
    right; exists res; auto.
Qed.

Lemma select_keeps_db q w :
  match q with
  | Store.SelectUser _ | Store.SelectPaste _ | Store.SelectPastesOf _ => True
  | _ => False
  end ->
  db (snd (sql q w)) = db w.
Proof.
  intros Hq. unfold sql.
  destruct (link w) as [|[|] l]; destruct q; simpl in *; try contradiction; reflexivity.
Qed.

Lemma filter_none {A} (f : A -> bool) (l : list A) :
  existsb f l = false -> List.filter f l = [].
Proof.
  induction l as [|a l IH]; simpl; [reflexivity|].
  destruct (f a); simpl; [discriminate | exact IH].
Qed.

(** ** The user validator *)

(** [validateUser] issues its SELECT and nothing else, and leaves the store
    as it is. *)
Lemma validateUser_frame id w :
  trace (snd (validateUser id w)) = trace w ++ [Store.SelectUser id]
  /\ db (snd (validateUser id w)) = db w
  /\ link (snd (validateUser id w)) = tl (link w)
  /\ console (snd (validateUser id w)) = console w
  /\ rateLimitMap (snd (validateUser id w)) = rateLimitMap w.
Proof.
  unfold validateUser.
  destruct (sql_frame (Store.SelectUser id) w) as (Ht & Hl & Hc & Hm).
  pose proof (select_keeps_db (Store.SelectUser id) w I) as Hd.
  destruct (sql (Store.SelectUser id) w) as [[err | res] w']; simpl in *.
  - auto.
  - destruct (Store.result_length res =? 0); simpl; auto.
Qed.

(** It answers [false] for an identifier that no row of [users] carries,
    whether its SELECT reaches the store or not. *)
Lemma validateUser_unknown id w :
  Store.has_user id (db w) = false -> fst (validateUser id w) = false.
Proof.
  intros Hno. unfold validateUser, sql.
  destruct (link w) as [|[|] l]; simpl; try reflexivity;
    unfold Store.has_user in Hno; rewrite (filter_none _ _ Hno); reflexivity.
Qed.

(** It answers [true] for the identifier of a row of [users] when its SELECT
    reaches the store. *)
Lemma validateUser_known id w :
  Store.has_user id (db w) = true ->
  hd true (link w) = true ->
  fst (validateUser id w) = true.
Proof.
  intros Hyes Hlink. unfold validateUser. rewrite (sql_reached _ _ Hlink). simpl.
  unfold Store.has_user in Hyes.
  destruct (List.filter (fun u => Store.same_id (Store.u_id u) id) (Store.users (db w)))
    as [|row rows] eqn:Hf; simpl.
  - apply existsb_exists in Hyes as (u & Hin & Hu).
    assert (Hin' : In u (List.filter (fun u => Store.same_id (Store.u_id u) id)
                           (Store.users (db w))))
      by (apply filter_In; split; assumption).
    rewrite Hf in Hin'. destruct Hin'.
  - reflexivity.
Qed.

(** ** Creating a paste *)

(** C6: a create-paste request that carries an owner identifier (a userid
    that passes the handler's presence test, a non-empty string) which no
    row of [users] carries is answered 403, and the only statement the
    request issues is the validator's SELECT: no row is written and the store
    is the one the request found. *)
Theorem create_paste_unknown_owner content format (u : string) e w id :
  u <> EmptyString ->
  generateId (random e) = Some id ->
  Store.has_user u (db w) = false ->
  exists w',
    create_paste (Fields content format (Js.Str u)) e w
    = Some (respond 403 (Text "You are not authorized to make this paste."), w')
    /\ db w' = db w
    /\ trace w' = trace w ++ [Store.SelectUser u].
Proof.
  intros Hu Hid Hno. unfold create_paste. rewrite Hid. simpl.
  apply String.eqb_neq in Hu. rewrite Hu. simpl.
  pose proof (validateUser_unknown u w Hno) as Hv.
  destruct (validateUser_frame u w) as (Ht & Hd & _).
  destruct (validateUser u w) as [valid w1]. simpl in *. subst valid. simpl.
  exists w1. auto.
Qed.

Lemma create_paste_unknown_owner_witness :
  exists w',
    create_paste (Fields (Js.Str "hello") (Js.Str "text") (Js.Str "NOSUCHUSER000000"))
      {| random := [map Z.of_nat (seq 0 45)]; now := 5 |} empty_world
    = Some (respond 403 (Text "You are not authorized to make this paste."), w')
    /\ db w' = db empty_world
    /\ trace w' = trace empty_world ++ [Store.SelectUser "NOSUCHUSER000000"].
Proof.
  apply (create_paste_unknown_owner (Js.Str "hello") (Js.Str "text") "NOSUCHUSER000000"
           {| random := [map Z.of_nat (seq 0 45)]; now := 5 |} empty_world
           "ZYXWVUTSRQPONMLK").
  - discriminate.
  - vm_compute. reflexivity.
  - reflexivity.
Defined.

(** An INSERT into [pastes] that succeeds appends exactly one row: the
    values as the columns store them. *)
Lemma insert_paste_ok id content format owner timestamp d d' :
  Store.insert_paste id content format owner timestamp d = inr d' ->
  exists c f i f',
    content = Js.Str c /\ format = Js.Str f
    /\ Store.clean c = true /\ Store.clean f = true
    /\ Store.id_param id = inr i
    /\ Store.varchar 64 f = Some f'
    /\ Store.has_paste i d = false
    /\ Store.users d' = Store.users d
    /\ Store.pastes d'
       = Store.pastes d ++ [{| Store.p_id := i; Store.p_content := c;
                               Store.p_format := f'; Store.p_timestamp := timestamp;
                               Store.p_userid := owner |}].
Proof.
  unfold Store.insert_paste, Store.text_param. intros H.
  destruct content as [| |c]; try discriminate.
  destruct (Store.clean c) eqn:Hc; [|destruct format as [| |f0]; discriminate].
  destruct format as [| |f]; try discriminate.
  destruct (Store.clean f) eqn:Hf; [|discriminate].
  destruct (Store.id_param id) as [err|i] eqn:Hi; [discriminate|].
  destruct (Store.varchar 64 f) as [f'|] eqn:Hv; [|discriminate].
  destruct (Store.has_paste i d) eqn:Hp; [discriminate|].
  injection H as <-. exists c, f, i, f'. simpl. auto 10.
Qed.

(** An INSERT into [pastes] is accepted when its values are text without
    NUL, the format fits its column and no paste carries the identifier. *)
Lemma insert_paste_accepts id i (c f f' : string) owner timestamp d :
  Store.clean c = true ->
  Store.clean f = true ->
  Store.id_param id = inr i ->
  Store.varchar 64 f = Some f' ->
  Store.has_paste i d = false ->
  Store.insert_paste id (Js.Str c) (Js.Str f) owner timestamp d
  = inr {| Store.users := Store.users d;
           Store.pastes := Store.pastes d
                           ++ [{| Store.p_id := i; Store.p_content := c;
                                  Store.p_format := f'; Store.p_timestamp := timestamp;
                                  Store.p_userid := owner |}] |}.
Proof.
  intros Hc Hf Hi Hv Hp. unfold Store.insert_paste, Store.text_param.
  now rewrite Hc, Hf, Hi, Hv, Hp.
Qed.

(** The create-paste handler with an absent owner answers 200 only after its
    INSERT has succeeded, and the identifier it returns is the generated
    one. *)
Lemma create_paste_anonymous_ok content format userid e w id w1 :
  Js.truthy userid = false ->
  create_paste (Fields content format userid) e w = Some (respond 200 (Text id), w1) ->
  generateId (random e) = Some id
  /\ exists d',
      Store.insert_paste id content format None (now e) (db w) = inr d'
      /\ db w1 = d'
      /\ link w1 = tl (link w)
      /\ trace w1 = trace w ++ [Store.InsertPaste id content format (now e)].
Proof.
  intros Hfalsy. unfold create_paste.
  destruct (generateId (random e)) as [id0|]; simpl; [|discriminate].
  rewrite Hfalsy. simpl. unfold sql.
  destruct (link w) as [|[|] l]; simpl;
    try (unfold create_paste_catch, respond; intros H; discriminate H);
    destruct (Store.insert_paste id0 content format None (now e) (db w)) as [err|d'] eqn:Hins;
    simpl; unfold create_paste_catch, respond; intros H; try discriminate H;
    injection H as Hid Hw; subst id0 w1; (split; [reflexivity|]); exists d'; simpl; auto.
Qed.

Lemma generated_id_nonempty random id :
  generateId random = Some id -> String.eqb id "" = false.
Proof.
  intros H. apply generated_id_shape in H as [Hlen _].
  apply String.eqb_neq. intros ->. discriminate Hlen.
Qed.

(** The anonymous INSERT of the handler, when the store accepts it. *)
Lemma create_paste_anonymous_accepted (c f f' : string) userid e w id :
  Js.truthy userid = false ->
  generateId (random e) = Some id ->
  hd true (link w) = true ->
  Store.has_paste id (db w) = false ->
  Store.clean c = true ->
  Store.clean f = true ->
  Store.varchar 64 f = Some f' ->
  exists w1,
    create_paste (Fields (Js.Str c) (Js.Str f) userid) e w
    = Some (respond 200 (Text id), w1)
    /\ Store.users (db w1) = Store.users (db w)
    /\ Store.pastes (db w1)
       = Store.pastes (db w)
         ++ [{| Store.p_id := id; Store.p_content := c; Store.p_format := f';
                Store.p_timestamp := now e; Store.p_userid := None |}].
Proof.
  intros Hfalsy Hid Hlink Hfresh Hc Hf Hv.
  unfold create_paste. rewrite Hid. simpl. rewrite Hfalsy. simpl.
  rewrite (sql_reached _ _ Hlink). simpl.
  rewrite (insert_paste_accepts id id c f f' None (now e) (db w) Hc Hf
             (id_param_generated _ _ Hid) Hv Hfresh).
  eexists. split; [reflexivity|]. simpl. auto.
Qed.

(** X16: with the store reached, a fresh identifier, a content and a format
    without NUL and a format that its column stores, an anonymous creation is
    answered 200 with the generated identifier, and the row that is appended
    carries the content and the format as stored. *)
Lemma create_paste_anonymous_succeeds (c f f' : string) userid e w id :
  Js.truthy userid = false ->
  generateId (random e) = Some id ->
  hd true (link w) = true ->
  Store.has_paste id (db w) = false ->
  Store.clean c = true ->
  Store.clean f = true ->
  Store.varchar 64 f = Some f' ->
  exists w1,
    create_paste (Fields (Js.Str c) (Js.Str f) userid) e w
    = Some (respond 200 (Text id), w1)
    /\ Store.pastes (db w1)
       = Store.pastes (db w)
         ++ [{| Store.p_id := id; Store.p_content := c; Store.p_format := f';
                Store.p_timestamp := now e; Store.p_userid := None |}].
Proof.
  intros Hfalsy Hid Hlink Hfresh Hc Hf Hv.
  destruct (create_paste_anonymous_accepted c f f' userid e w id
              Hfalsy Hid Hlink Hfresh Hc Hf Hv) as (w1 & Hr & _ & Hp).
  exists w1. split; assumption.
Qed.

(** The round trip does not return every format as submitted: a format of
    64 characters followed by a blank is accepted, stored without the blank,
    and read back without it. *)
Lemma round_trip_loses_trailing_blanks :
  let f := "aaaaaaaaaaaaaaaaaaaaaaaaaaaaaaaaaaaaaaaaaaaaaaaaaaaaaaaaaaaaaaaa " in
  let e := {| random := [map Z.of_nat (seq 0 45)]; now := 5 |} in
  exists w1 row w2,
    create_paste (Fields (Js.Str "hello") (Js.Str f) Js.Undefined) e empty_world
    = Some (respond 200 (Text "ZYXWVUTSRQPONMLK"), w1)
    /\ read_paste (Js.Str "ZYXWVUTSRQPONMLK") w1
       = (respond 200 (Rows (Store.Pastes [row])), w2)
    /\ Js.Str (Store.p_content row) = Js.Str "hello"
    /\ Js.Str (Store.p_format row) <> Js.Str f.
Proof.
  intros f e. eexists _, _, _. split; [vm_compute; reflexivity|].
  split; [vm_compute; reflexivity|]. split; [reflexivity|].
  simpl. intros H. injection H as H. discriminate H.
Qed.

(** C8: when a create-paste request with no owner has been answered 200 with
    an identifier, a read-paste request for that identifier whose SELECT
    reaches the store, at once or after pastes with other identifiers have
    been added, is answered 200 with exactly one row.  That row carries the
    identifier, the submitted content, no owner, and the format as the
    VARCHAR(64) column stores it: the submitted format when it has at most 64
    characters, its first 64 characters otherwise. *)
Theorem create_then_read_round_trip content format userid e w id w1 later w2 :
  Js.truthy userid = false ->
  create_paste (Fields content format userid) e w = Some (respond 200 (Text id), w1) ->
  Store.pastes (db w2) = Store.pastes (db w1) ++ later ->
  existsb (fun p => Store.same_id (Store.p_id p) id) later = false ->
  hd true (link w2) = true ->
  exists row w3 f,
    read_paste (Js.Str id) w2 = (respond 200 (Rows (Store.Pastes [row])), w3)
    /\ Store.p_id row = id
    /\ Js.Str (Store.p_content row) = content
    /\ format = Js.Str f
    /\ Store.varchar 64 f = Some (Store.p_format row)
    /\ ((String.length f <= 64)%nat -> Store.p_format row = f)
    /\ Store.p_userid row = None.
Proof.
  intros Hfalsy Hcreate Hlater Hother Hlink.
  destruct (create_paste_anonymous_ok _ _ _ _ _ _ _ Hfalsy Hcreate)
    as (Hgen & d' & Hins & Hdb & _).
  destruct (insert_paste_ok _ _ _ _ _ _ _ Hins)
    as (c & f & i & f' & -> & -> & _ & _ & Hi & Hv & Hfresh & _ & Hrows).
  rewrite (id_param_generated _ _ Hgen) in Hi. injection Hi as <-.
  unfold read_paste. simpl. rewrite (generated_id_nonempty _ _ Hgen). simpl.
  rewrite (sql_reached _ _ Hlink). simpl.
  rewrite Hlater, Hdb, Hrows, !List.filter_app.
  unfold Store.has_paste in Hfresh.
  rewrite (filter_none _ _ Hfresh), (filter_none _ _ Hother).
  simpl. rewrite same_id_refl. simpl.
  eexists _, _, f. split; [reflexivity|]. simpl.
  repeat split; try assumption; try reflexivity.
  intros Hle. now apply (varchar_stores_short 64 f f' Hv).
Qed.

Lemma create_then_read_round_trip_witness :
  let other := {| Store.p_id := "BBBBBBBBBBBBBBBB"; Store.p_content := "two";
                  Store.p_format := "text"; Store.p_timestamp := 6;
                  Store.p_userid := None |} in
  let w2 := {| db := {| Store.users := [];
                        Store.pastes := [{| Store.p_id := "ZYXWVUTSRQPONMLK";
                                            Store.p_content := "hello";
                                            Store.p_format := "text";
                                            Store.p_timestamp := 5;
                                            Store.p_userid := None |}; other] |};
               link := []; trace := []; console := []; rateLimitMap := ∅ |} in
  exists row w3 f,
    read_paste (Js.Str "ZYXWVUTSRQPONMLK") w2
    = (respond 200 (Rows (Store.Pastes [row])), w3)
    /\ Store.p_id row = "ZYXWVUTSRQPONMLK"
    /\ Js.Str (Store.p_content row) = Js.Str "hello"
    /\ Js.Str "text" = Js.Str f
    /\ Store.varchar 64 f = Some (Store.p_format row)
    /\ ((String.length f <= 64)%nat -> Store.p_format row = f)
    /\ Store.p_userid row = None.
Proof.
  intros other w2.
  apply (create_then_read_round_trip (Js.Str "hello") (Js.Str "text") Js.Undefined
           {| random := [map Z.of_nat (seq 0 45)]; now := 5 |} empty_world
           "ZYXWVUTSRQPONMLK"
           {| db := {| Store.users := [];
                       Store.pastes := [{| Store.p_id := "ZYXWVUTSRQPONMLK";
                                           Store.p_content := "hello";
                                           Store.p_format := "text";
                                           Store.p_timestamp := 5;
                                           Store.p_userid := None |}] |};
              link := [];
              trace := [Store.InsertPaste "ZYXWVUTSRQPONMLK" (Js.Str "hello")
                          (Js.Str "text") 5];
              console := []; rateLimitMap := ∅ |}
           [other] w2).
  - reflexivity.
  - vm_compute. reflexivity.
  - reflexivity.
  - reflexivity.
  - reflexivity.
Defined.

(** C10: a create-paste request whose userid is the empty string or null is
    handled exactly as one whose userid is absent: the validator's SELECT is
    not issued (the only statement is the four-column INSERT) and the answer
    is not 403.  When that INSERT reaches the store and the store accepts it
    (a content and a format without NUL, a format its column stores, an
    identifier no paste carries), the answer is 200 and the row is appended
    with no owner; and a 200 answer always comes with that row. *)
Theorem empty_userid_is_anonymous content format (v : Js.Value) e w id :
  v = Js.Str "" \/ v = Js.Null ->
  generateId (random e) = Some id ->
  create_paste (Fields content format v) e w
  = create_paste (Fields content format Js.Undefined) e w
  /\ exists r w',
      create_paste (Fields content format v) e w = Some (r, w')
      /\ status r <> Some 403
      /\ trace w' = trace w ++ [Store.InsertPaste id content format (now e)]
      /\ Store.users (db w') = Store.users (db w)
      /\ (forall c f f',
             content = Js.Str c -> format = Js.Str f ->
             Store.clean c = true -> Store.clean f = true ->
             Store.varchar 64 f = Some f' ->
             Store.has_paste id (db w) = false ->
             hd true (link w) = true ->
             r = respond 200 (Text id)
             /\ Store.pastes (db w')
                = Store.pastes (db w)
                  ++ [{| Store.p_id := id; Store.p_content := c; Store.p_format := f';
                         Store.p_timestamp := now e; Store.p_userid := None |}])
      /\ (status r = Some 200 ->
          exists c f f',
            content = Js.Str c /\ format = Js.Str f
            /\ Store.varchar 64 f = Some f'
            /\ Store.pastes (db w')
               = Store.pastes (db w)
                 ++ [{| Store.p_id := id; Store.p_content := c; Store.p_format := f';
                        Store.p_timestamp := now e; Store.p_userid := None |}]).
Proof.
  intros Hv Hid.
  assert (Hfalsy : Js.truthy v = false) by (destruct Hv as [-> | ->]; reflexivity).
  assert (Hsame : create_paste (Fields content format v) e w
                  = create_paste (Fields content format Js.Undefined) e w)
    by (unfold create_paste; rewrite Hid; simpl; now rewrite Hfalsy).
  split; [exact Hsame|].
  assert (Hacc : forall r w' c f f',
             create_paste (Fields content format v) e w = Some (r, w') ->
             content = Js.Str c -> format = Js.Str f ->
             Store.clean c = true -> Store.clean f = true ->
             Store.varchar 64 f = Some f' ->
             Store.has_paste id (db w) = false ->
             hd true (link w) = true ->
             r = respond 200 (Text id)
             /\ Store.pastes (db w')
                = Store.pastes (db w)
                  ++ [{| Store.p_id := id; Store.p_content := c; Store.p_format := f';
                         Store.p_timestamp := now e; Store.p_userid := None |}]).
  { intros r w' c f f' Hrun -> -> Hc Hf Hvar Hfresh Hlink.
    destruct (create_paste_anonymous_accepted c f f' v e w id
                Hfalsy Hid Hlink Hfresh Hc Hf Hvar) as (w1 & Hr & _ & Hp).
    rewrite Hrun in Hr. injection Hr as -> ->. now split. }
  unfold create_paste in Hacc |- *. rewrite Hid in Hacc |- *. simpl in Hacc |- *.
  rewrite Hfalsy in Hacc |- *. simpl in Hacc |- *.
  destruct (sql_frame (Store.InsertPaste id content format (now e)) w) as (Ht & _).
  destruct (sql_cases (Store.InsertPaste id content format (now e)) w)
    as [(err & Hf & Hd) | (res & Hf & _ & Hx)].
  - destruct (sql (Store.InsertPaste id content format (now e)) w) as [[err'|res'] w1];
      simpl in *; [|discriminate].
    eexists _, _. split; [reflexivity|]. simpl.
    split; [discriminate|]. split; [exact Ht|]. split; [now rewrite Hd|].
    split; [intros c f f'; apply (Hacc _ _ c f f' eq_refl) | discriminate].
  - destruct (sql (Store.InsertPaste id content format (now e)) w) as [[err'|res'] w1];
      simpl in *; [discriminate|].
    eexists _, _. split; [reflexivity|]. simpl.
    destruct (Store.insert_paste id content format None (now e) (db w))
      as [err|d'] eqn:Hins; [discriminate|].
    injection Hx as _ Hd. subst d'.
    destruct (insert_paste_ok _ _ _ _ _ _ _ Hins)
      as (c & f & i & f' & Hc & Hf' & _ & _ & Hi & Hvar & _ & Hu & Hp).
    rewrite (id_param_generated _ _ Hid) in Hi. injection Hi as <-.
    split; [discriminate|]. split; [exact Ht|]. split; [exact Hu|].
    split; [intros c0 f0 f0'; apply (Hacc _ _ c0 f0 f0' eq_refl)|].
    intros _. exists c, f, f'. auto.
Qed.

Lemma empty_userid_is_anonymous_witness :
  let e := {| random := [map Z.of_nat (seq 0 45)]; now := 5 |} in
  create_paste (Fields (Js.Str "hello") (Js.Str "text") (Js.Str "")) e empty_world
  = create_paste (Fields (Js.Str "hello") (Js.Str "text") Js.Undefined) e empty_world
  /\ exists w',
      create_paste (Fields (Js.Str "hello") (Js.Str "text") (Js.Str "")) e empty_world
      = Some (respond 200 (Text "ZYXWVUTSRQPONMLK"), w')
      /\ trace w' = [Store.InsertPaste "ZYXWVUTSRQPONMLK" (Js.Str "hello") (Js.Str "text") 5]
      /\ Store.users (db w') = []
      /\ Store.pastes (db w')
         = [{| Store.p_id := "ZYXWVUTSRQPONMLK"; Store.p_content := "hello";
               Store.p_format := "text"; Store.p_timestamp := 5;
               Store.p_userid := None |}].
Proof.
  intros e.
  destruct (empty_userid_is_anonymous (Js.Str "hello") (Js.Str "text") (Js.Str "") e
              empty_world "ZYXWVUTSRQPONMLK" (or_introl eq_refl) eq_refl)
    as (Hsame & r & w' & Hrun & _ & Htrace & Husers & Haccepted & _).
  destruct (Haccepted "hello" "text" "text" eq_refl eq_refl eq_refl eq_refl eq_refl
              eq_refl eq_refl) as [-> Hrow].
  split; [exact Hsame|]. exists w'. repeat split; assumption.
Defined.

(** ** Reading pastes *)

(** C3: the code at a read-pastes request, for every non-empty identifier
    and in particular for one that no user carries.  The guard tests a
    promise, so the 403 "not authorized" answer is never given: the
    validator's SELECT is issued and then the SELECT on [pastes], and when
    the latter reaches the store the answer is 404 or 200. *)
Theorem read_pastes_never_validates (u : string) w :
  u <> EmptyString ->
  trace (snd (read_pastes (Js.Str u) w))
  = trace w ++ [Store.SelectUser u; Store.SelectPastesOf u]
  /\ body (fst (read_pastes (Js.Str u) w))
     <> Text "You are not authorized to read this profile"
  /\ (hd true (tl (link w)) = true ->
      status (fst (read_pastes (Js.Str u) w)) = Some 404
      \/ status (fst (read_pastes (Js.Str u) w)) = Some 200).
Proof.
  intros Hu. apply String.eqb_neq in Hu.
  unfold read_pastes. simpl. rewrite Hu. simpl.
  destruct (validateUser_frame u w) as (Ht & _ & Hl & _).
  destruct (validateUser u w) as [valid w1]. simpl in Ht, Hl. simpl.
  destruct (sql_frame (Store.SelectPastesOf u) w1) as (Ht2 & _).
  rewrite Ht, <- app_assoc in Ht2. simpl in Ht2.
  split; [|split].
  - destruct (sql (Store.SelectPastesOf u) w1) as [[err|res] w2]; simpl in *;
      [exact Ht2 |].
    destruct (Store.result_length res =? 0); exact Ht2.
  - destruct (sql (Store.SelectPastesOf u) w1) as [[err|res] w2]; simpl;
      [discriminate |].
    destruct (Store.result_length res =? 0); simpl; discriminate.
  - intros Hlink. rewrite <- Hl in Hlink. rewrite (sql_reached _ _ Hlink). simpl.
    destruct (Z.of_nat _ =? 0); simpl; auto.
Qed.

Lemma read_pastes_never_validates_witness :
  read_pastes (Js.Str "NOSUCHUSER000000") empty_world
  = (respond 404 (Text "No user with id NOSUCHUSER000000 found"),
     {| db := db empty_world; link := [];
        trace := [Store.SelectUser "NOSUCHUSER000000";
                  Store.SelectPastesOf "NOSUCHUSER000000"];
        console := []; rateLimitMap := ∅ |})
  /\ trace (snd (read_pastes (Js.Str "NOSUCHUSER000000") empty_world))
     = trace empty_world ++ [Store.SelectUser "NOSUCHUSER000000";
                             Store.SelectPastesOf "NOSUCHUSER000000"].
Proof.
  split; [reflexivity|].
  refine (proj1 (read_pastes_never_validates "NOSUCHUSER000000" empty_world _)).
  discriminate.
Defined.

(** C5: the code at a read request whose SELECT on [pastes] does not reach
    the store: both read handlers answer 403, with the generic message. *)
Theorem read_handlers_answer_403_on_store_failure (s : string) w :
  s <> EmptyString ->
  (forall l, link w = false :: l ->
             fst (read_paste (Js.Str s) w) = respond 403 read_failure)
  /\ (forall b l, link w = b :: false :: l ->
                  fst (read_pastes (Js.Str s) w) = respond 403 read_failure).
Proof.
  intros Hs. apply String.eqb_neq in Hs. split.
  - intros l Hl. unfold read_paste. simpl. rewrite Hs. simpl.
    unfold sql. rewrite Hl. reflexivity.
  - intros b l Hl. unfold read_pastes. simpl. rewrite Hs. simpl.
    destruct (validateUser_frame s w) as (_ & _ & Hl1 & _).
    destruct (validateUser s w) as [valid w1]. simpl in *.
    rewrite Hl in Hl1. simpl in Hl1.
    unfold sql. rewrite Hl1. reflexivity.
Qed.

Lemma read_handlers_answer_403_on_store_failure_witness :
  let down := {| db := db empty_world; link := [false]; trace := [];
                 console := []; rateLimitMap := ∅ |} in
  let down_later := {| db := db empty_world; link := [true; false]; trace := [];
                       console := []; rateLimitMap := ∅ |} in
  status (fst (read_paste (Js.Str "ZYXWVUTSRQPONMLK") down)) = Some 403
  /\ status (fst (read_pastes (Js.Str "ZYXWVUTSRQPONMLK") down_later)) = Some 403.
Proof.
  intros down down_later. split.
  - rewrite (proj1 (read_handlers_answer_403_on_store_failure "ZYXWVUTSRQPONMLK" down
                      ltac:(discriminate)) [] eq_refl).
    reflexivity.
  - rewrite (proj2 (read_handlers_answer_403_on_store_failure "ZYXWVUTSRQPONMLK" down_later
                      ltac:(discriminate)) true [] eq_refl).
    reflexivity.
Defined.

(** X17: the two handlers that write answer 400 when their INSERT fails. *)
Lemma create_handlers_answer_400_on_store_failure content format userid e w id l :
  generateId (random e) = Some id ->
  link w = false :: l ->
  Js.truthy userid = false ->
  (exists w', create_user e w
              = Some (respond 400
                        (Text "Couldn't create user for some reason, ask devs to check the logs"),
                      w'))
  /\ (exists w', create_paste (Fields content format userid) e w
                 = Some (respond 400
                           (Text "Couldn't create paste for some reason, ask devs to check the logs"),
                         w')).
Proof.
  intros Hid Hl Hfalsy. split.
  - unfold create_user. rewrite Hid. simpl. unfold sql. rewrite Hl. eexists. reflexivity.
  - unfold create_paste. rewrite Hid. simpl. rewrite Hfalsy. simpl.
    unfold sql. rewrite Hl. eexists. reflexivity.
Qed.

(** ** The middleware stack *)

Section Stack.

Variable allowed : Request -> Response -> Response.

(** A request that matches a route is answered by the route's handler and by
    nothing else: [rateLimiter], registered after the router, is not run,
    whatever the client's record says. *)
Lemma routed_request_bypasses_rateLimiter req e w r :
  match_route req = Some r ->
  app allowed req e w = handler r req e w.
Proof. intros H. unfold app. simpl. unfold routes. now rewrite H. Qed.

(** The handlers leave the limiter's map alone. *)
Lemma handler_keeps_rateLimitMap r req e w resp w' :
  handler r req e w = Some (resp, w') -> rateLimitMap w' = rateLimitMap w.
Proof.
  destruct r as [| |id|id]; simpl.
  - unfold create_user. destruct (generateId (random e)) as [id|]; simpl; [|discriminate].
    destruct (sql_frame (Store.InsertUser id (now e)) w) as (_ & _ & _ & Hm).
    destruct (sql (Store.InsertUser id (now e)) w) as [[err|res] w1]; simpl in *;
      intros H; injection H as _ <-; exact Hm.
  - unfold create_paste. destruct (generateId (random e)) as [id|]; simpl; [|discriminate].
    destruct (json req) as [|content format userid].
    + intros H. injection H as _ <-. reflexivity.
    + destruct (Js.truthy userid); simpl.
      * destruct (validateUser_frame (Js.as_string userid) w) as (_ & _ & _ & _ & Hm1).
        destruct (validateUser (Js.as_string userid) w) as [valid w1]. simpl in Hm1.
        destruct valid; simpl.
        -- destruct (sql_frame (Store.InsertPasteOwned id content format
                                  (Js.as_string userid) (now e)) w1) as (_ & _ & _ & Hm).
           destruct (sql (Store.InsertPasteOwned id content format
                            (Js.as_string userid) (now e)) w1) as [[err|res] w2];
             simpl in *; intros H; injection H as _ <-; simpl; congruence.
        -- intros H. injection H as _ <-. exact Hm1.
      * destruct (sql_frame (Store.InsertPaste id content format (now e)) w)
          as (_ & _ & _ & Hm).
        destruct (sql (Store.InsertPaste id content format (now e)) w) as [[err|res] w1];
          simpl in *; intros H; injection H as _ <-; exact Hm.
  - unfold read_paste. simpl. destruct (String.eqb id ""); simpl.
    + intros H. injection H as _ <-. reflexivity.
    + destruct (sql_frame (Store.SelectPaste id) w) as (_ & _ & _ & Hm).
      destruct (sql (Store.SelectPaste id) w) as [[err|res] w1]; simpl in *;
        [intros H; injection H as _ <-; exact Hm|].
      destruct (Store.result_length res =? 0); intros H; injection H as _ <-; exact Hm.
  - unfold read_pastes. simpl. destruct (String.eqb id ""); simpl.
    + intros H. injection H as _ <-. reflexivity.
    + destruct (validateUser_frame id w) as (_ & _ & _ & _ & Hm1).
      destruct (validateUser id w) as [valid w1]. simpl in Hm1. simpl.
      destruct (sql_frame (Store.SelectPastesOf id) w1) as (_ & _ & _ & Hm).
      destruct (sql (Store.SelectPastesOf id) w1) as [[err|res] w2]; simpl in *;
        [intros H; injection H as _ <-; simpl; congruence|].
      destruct (Store.result_length res =? 0); intros H; injection H as _ <-; congruence.
Qed.

(** A request that matches no route is the only kind that reaches
    [rateLimiter]; it issues no statement and leaves the store alone, whether
    it is let through or rejected. *)
Lemma unrouted_request_issues_nothing req e w resp w' :
  match_route req = None ->
  app allowed req e w = Some (resp, w') ->
  trace w' = trace w /\ db w' = db w.
Proof.
  intros Hroute. unfold app. simpl. unfold routes. rewrite Hroute.
  unfold allowedMethods, rateLimiter. simpl.
  destruct (rateLimitMap w !! ip req) as [cd|]; simpl.
  - destruct (now e >? lastRequestTime cd + RATE_LIMIT_WINDOW); simpl.
    + intros H. injection H as _ <-. auto.
    + destruct (count cd >? MAX_REQUESTS); simpl; intros H; injection H as _ <-; auto.
  - intros H. injection H as _ <-. auto.
Qed.

End Stack.

(** C2: the code at a routed request of a client that is over its limit.
    The client's record holds a count of 11 inside the current window, so
    [rateLimiter] would reject the request; yet the application runs the
    create-user handler, which issues its INSERT and answers 200, and the
    limiter's map is not even consulted. *)
Theorem over_limit_client_is_served :
  let w := set_rateLimitMap {["10.0.0.7" := {| count := 11; lastRequestTime := 0 |}]}
             empty_world in
  let req := {| ip := "10.0.0.7"; method := GET; path := ["create-user"];
                json := JsonNull |} in
  let e := {| random := [map Z.of_nat (seq 0 45)]; now := 5 |} in
  lets_through req e w = false
  /\ forall allowed,
      app allowed req e w
      = Some (respond 200 (Text "ZYXWVUTSRQPONMLK"),
              {| db := {| Store.users := [{| Store.u_id := "ZYXWVUTSRQPONMLK";
                                             Store.u_timestamp := 5 |}];
                          Store.pastes := [] |};
                 link := [];
                 trace := [Store.InsertUser "ZYXWVUTSRQPONMLK" 5];
                 console := [];
                 rateLimitMap := rateLimitMap w |}).
Proof.
  intros w req e. split.
  - vm_compute. reflexivity.
  - intros allowed.
    rewrite (routed_request_bypasses_rateLimiter allowed req e w CreateUser eq_refl).
    vm_compute. reflexivity.
Qed.

(** The scenario of the specification, on the code: ten requests within two
    seconds, an eleventh inside the same window and a twelfth eleven seconds
    after the first.  All twelve are let through. *)
Example scenario_of_twelve :
  fst (limiter_run
         (map (hit "10.0.0.7")
            [0; 200; 400; 600; 800; 1000; 1200; 1400; 1600; 1800; 2000; 11000])
         empty_world)
  = repeat true 12.
Proof. vm_compute. reflexivity. Qed.

(** * Further properties of the rate limiter *)

(** One step, seen from a client's record: the decision and the client's
    next record depend on nothing but the record the request finds. *)
Lemma step_local req e w1 w2 :
  rateLimitMap w1 !! ip req = rateLimitMap w2 !! ip req ->
  lets_through req e w1 = lets_through req e w2
  /\ rateLimitMap (after_limiter req e w1) !! ip req
     = rateLimitMap (after_limiter req e w2) !! ip req.
Proof.
  intros H. unfold lets_through, after_limiter, rateLimiter. simpl. rewrite H.
  destruct (rateLimitMap w2 !! ip req) as [cd|] eqn:Hk; simpl.
  - destruct (now e >? lastRequestTime cd + RATE_LIMIT_WINDOW); simpl.
    + now rewrite !lookup_insert_eq.
    + destruct (count cd >? MAX_REQUESTS); simpl.
      * split; [reflexivity | congruence].
      * now rewrite !lookup_insert_eq.
  - now rewrite !lookup_insert_eq.
Qed.

(** One step leaves the records of the other clients as they are. *)
Lemma step_other req e w k :
  k <> ip req ->
  rateLimitMap (after_limiter req e w) !! k = rateLimitMap w !! k.
Proof.
  intros Hk. unfold after_limiter, rateLimiter. simpl.
  destruct (rateLimitMap w !! ip req) as [cd|]; simpl.
  - destruct (now e >? lastRequestTime cd + RATE_LIMIT_WINDOW); simpl.
    + now apply lookup_insert_ne.
    + destruct (count cd >? MAX_REQUESTS); simpl;
        [reflexivity | now apply lookup_insert_ne].
  - now apply lookup_insert_ne.
Qed.

(** X1: clients are limited independently of each other: in any sequence of
    requests, the decisions on the requests of one client are the decisions
    the limiter takes when it meets that client's requests alone. *)
Theorem clients_are_limited_independently (k : string) (reqs : list (Request * Env)) w :
  decisions_of k reqs (fst (limiter_run reqs w))
  = fst (limiter_run (List.filter (of_client k) reqs) w).
Proof.
  assert (Hgen : forall w1 w2,
             rateLimitMap w1 !! k = rateLimitMap w2 !! k ->
             decisions_of k reqs (fst (limiter_run reqs w1))
             = fst (limiter_run (List.filter (of_client k) reqs) w2)).
  { induction reqs as [|[req e] rest IH]; intros w1 w2 H; [reflexivity|].
    rewrite limiter_run_cons. cbn [fst decisions_of List.filter].
    destruct (of_client k (req, e)) eqn:Hc; unfold of_client in Hc; cbn [fst] in Hc.
    - apply String.eqb_eq in Hc. subst k. rewrite limiter_run_cons. cbn [fst].
      destruct (step_local req e w1 w2 H) as [-> Hafter].
      f_equal. now apply IH.
    - apply String.eqb_neq in Hc. apply IH. rewrite <- H. apply step_other. congruence. }
  now apply Hgen.
Qed.

(** X2: the limiter never issues a statement and never writes the response of a
    request it lets through: either it answers 429 and leaves the process as
    it is, or it calls [next] with the response it received and a process
    that differs in the map only, and there in the client's record only. *)
Theorem limiter_touches_only_the_map req e next response w :
  rateLimiter req e next (response, w)
  = Some (respond 429 (Text "You're being rate limited. Try again later"), w)
  \/ exists cd,
      rateLimiter req e next (response, w)
      = next (response, set_rateLimitMap (<[ip req := cd]> (rateLimitMap w)) w).
Proof.
  unfold rateLimiter. simpl.
  destruct (rateLimitMap w !! ip req) as [cd|]; simpl.
  - destruct (now e >? lastRequestTime cd + RATE_LIMIT_WINDOW); simpl.
    + right. eexists. reflexivity.
    + destruct (count cd >? MAX_REQUESTS); simpl;
        [left; reflexivity | right; eexists; reflexivity].
  - right. eexists. reflexivity.
Qed.

Lemma step_keeps_counts_bounded req e w :
  counts_bounded (rateLimitMap w) ->
  counts_bounded (rateLimitMap (after_limiter req e w)).
Proof.
  intros Hb k cd'. unfold after_limiter, rateLimiter. simpl.
  destruct (rateLimitMap w !! ip req) as [cd|] eqn:Hk; simpl.
  - destruct (now e >? lastRequestTime cd + RATE_LIMIT_WINDOW); simpl.
    + rewrite lookup_insert. case_decide.
      * intros [= <-]. simpl. unfold MAX_REQUESTS. lia.
      * apply Hb.
    + destruct (Z.gtb_spec (count cd) MAX_REQUESTS); simpl; [apply Hb|].
      rewrite lookup_insert. case_decide.
      * intros [= <-]. simpl. pose proof (Hb _ _ Hk). lia.
      * apply Hb.
  - rewrite lookup_insert. case_decide.
    + intros [= <-]. simpl. unfold MAX_REQUESTS. lia.
    + apply Hb.
Qed.

(** X3: whatever requests arrive, from whatever clients and at whatever times,
    every stored count stays between 1 and MAX_REQUESTS + 1. *)
Theorem limiter_keeps_counts_bounded (reqs : list (Request * Env)) :
  forall w,
    counts_bounded (rateLimitMap w) ->
    counts_bounded (rateLimitMap (snd (limiter_run reqs w))).
Proof.
  induction reqs as [|[req e] rest IH]; intros w Hb; [exact Hb|].
  rewrite limiter_run_cons. cbn [snd]. apply IH. now apply step_keeps_counts_bounded.
Qed.

Lemma limiter_keeps_counts_bounded_witness :
  counts_bounded
    (rateLimitMap
       (snd (limiter_run (map (hit "10.0.0.7") [0; 1; 2; 20000] ++ [hit "10.0.0.8" 3])
               empty_world))).
Proof.
  apply (limiter_keeps_counts_bounded
           (map (hit "10.0.0.7") [0; 1; 2; 20000] ++ [hit "10.0.0.8" 3]) empty_world).
  intros k cd H. simpl in H. rewrite lookup_empty in H. discriminate H.
Defined.

Lemma step_keeps_records req e w k :
  is_Some (rateLimitMap w !! k) ->
  is_Some (rateLimitMap (after_limiter req e w) !! k).
Proof.
  intros Hk. destruct (decide (k = ip req)) as [-> | Hne].
  - unfold after_limiter, rateLimiter. simpl.
    destruct (rateLimitMap w !! ip req) as [cd|] eqn:Hr; simpl.
    + destruct (now e >? lastRequestTime cd + RATE_LIMIT_WINDOW); simpl.
      * rewrite lookup_insert_eq. eauto.
      * destruct (count cd >? MAX_REQUESTS); simpl;
          [rewrite Hr | rewrite lookup_insert_eq]; eauto.
    + rewrite lookup_insert_eq. eauto.
  - now rewrite step_other.
Qed.

Lemma step_records_client req e w :
  is_Some (rateLimitMap (after_limiter req e w) !! ip req).
Proof.
  unfold after_limiter, rateLimiter. simpl.
  destruct (rateLimitMap w !! ip req) as [cd|] eqn:Hr; simpl.
  - destruct (now e >? lastRequestTime cd + RATE_LIMIT_WINDOW); simpl.
    + rewrite lookup_insert_eq. eauto.
    + destruct (count cd >? MAX_REQUESTS); simpl;
        [rewrite Hr | rewrite lookup_insert_eq]; eauto.
  - rewrite lookup_insert_eq. eauto.
Qed.

Lemma run_keeps_records (reqs : list (Request * Env)) k :
  forall w,
    is_Some (rateLimitMap w !! k) ->
    is_Some (rateLimitMap (snd (limiter_run reqs w)) !! k).
Proof.
  induction reqs as [|[req e] rest IH]; intros w Hk; [exact Hk|].
  rewrite limiter_run_cons. cbn [snd]. apply IH. now apply step_keeps_records.
Qed.

(** X4: the map has no eviction: after any sequence of requests, every client
    that had a record before or sent one of the requests, let through or
    not, has a record. *)
Theorem records_are_never_dropped (reqs : list (Request * Env)) k :
  forall w,
    is_Some (rateLimitMap w !! k) \/ In k (map (fun r => ip (fst r)) reqs) ->
    is_Some (rateLimitMap (snd (limiter_run reqs w)) !! k).
Proof.
  induction reqs as [|[req e] rest IH]; intros w [Hk | Hin].
  - exact Hk.
  - destruct Hin.
  - now apply run_keeps_records.
  - rewrite limiter_run_cons. cbn [snd]. simpl in Hin. destruct Hin as [<- | Hin].
    + apply IH. left. apply step_records_client.
    + apply IH. now right.
Qed.

Lemma records_are_never_dropped_witness :
  is_Some (rateLimitMap
             (snd (limiter_run (map (hit "10.0.0.7") [0; 1; 2] ++ [hit "10.0.0.8" 3])
                     empty_world)) !! "10.0.0.8").
Proof.
  apply (records_are_never_dropped
           (map (hit "10.0.0.7") [0; 1; 2] ++ [hit "10.0.0.8" 3]) "10.0.0.8" empty_world).
  right. simpl. auto.
Defined.

(** X5: requests that arrive inside a window, rejected ones included, do not
    move its start: whichever request opened the window (the client's first
    one, or the first after an earlier window had ended), a client that keeps
    sending is let through again by its first request later than
    RATE_LIMIT_WINDOW after that opening request, and that request opens a
    new window. *)
Theorem rejections_do_not_extend_the_window (k : string) first rest late w :
  opens_window first w ->
  ip (fst first) = k ->
  Forall (within k (now (snd first) + RATE_LIMIT_WINDOW)) rest ->
  ip (fst late) = k ->
  now (snd late) > now (snd first) + RATE_LIMIT_WINDOW ->
  fst (limiter_run (first :: rest ++ [late]) w)
  = fst (limiter_run (first :: rest) w) ++ [true]
  /\ rateLimitMap (snd (limiter_run (first :: rest ++ [late]) w)) !! k
     = Some {| count := 1; lastRequestTime := now (snd late) |}.
Proof.
  intros Hopen Hip Hall Hlate Ht.
  destruct (run_from_opening k first rest w Hopen Hip Hall) as [_ Hrec].
  assert (Happ : forall (l : list (Request * Env)) r w0,
             limiter_run (l ++ [r]) w0
             = (fst (limiter_run l w0)
                  ++ [lets_through (fst r) (snd r) (snd (limiter_run l w0))],
                after_limiter (fst r) (snd r) (snd (limiter_run l w0)))).
  { induction l as [|[rq en] l IH]; intros [r1 r2] w0.
    - reflexivity.
    - change (((rq, en) :: l) ++ [(r1, r2)]) with ((rq, en) :: (l ++ [(r1, r2)])).
      rewrite !limiter_run_cons, IH. reflexivity. }
  change (first :: rest ++ [late]) with ((first :: rest) ++ [late]).
  rewrite Happ. cbn [fst snd].
  set (w1 := snd (limiter_run (first :: rest) w)) in *.
  destruct late as [rq en]. simpl in Hlate, Ht. subst k. cbn [fst snd].
  rewrite <- Hlate in Hrec.
  unfold lets_through, after_limiter.
  rewrite !(rateLimiter_expired rq en w1 _ _ _ Hrec Ht).
  split; [reflexivity|]. unfold fresh_window. simpl. rewrite Hlate. apply lookup_insert_eq.
Qed.

Lemma rejections_do_not_extend_the_window_witness :
  let w := set_rateLimitMap {["10.0.0.7" := {| count := 11; lastRequestTime := 0 |}]}
             empty_world in
  let burst := map (hit "10.0.0.7")
                 [20001; 20002; 20003; 20004; 20005; 20006; 20007; 20008; 20009; 20010;
                  20011; 29000; 30000] in
  fst (limiter_run (hit "10.0.0.7" 20000 :: burst ++ [hit "10.0.0.7" 30001]) w)
  = fst (limiter_run (hit "10.0.0.7" 20000 :: burst) w) ++ [true]
  /\ rateLimitMap
       (snd (limiter_run (hit "10.0.0.7" 20000 :: burst ++ [hit "10.0.0.7" 30001]) w))
       !! "10.0.0.7"
     = Some {| count := 1; lastRequestTime := 30001 |}.
Proof.
  intros w burst.
  apply (rejections_do_not_extend_the_window "10.0.0.7" (hit "10.0.0.7" 20000)
           burst (hit "10.0.0.7" 30001) w).
  - vm_compute. reflexivity.
  - reflexivity.
  - repeat constructor; simpl; unfold RATE_LIMIT_WINDOW; lia.
  - reflexivity.
  - simpl. unfold RATE_LIMIT_WINDOW. lia.
Defined.

(** * Further properties of the validator and the handlers *)

(** What a successful statement is and does. *)
Lemma exec_effect q d res d' :
  Store.exec q d = inr (res, d') ->
  match q with
  | Store.InsertUser id timestamp =>
      exists i,
        Store.id_param id = inr i
        /\ Store.has_user i d = false
        /\ d' = {| Store.users := Store.users d
                                  ++ [{| Store.u_id := i; Store.u_timestamp := timestamp |}];
                   Store.pastes := Store.pastes d |}
  | Store.InsertPaste id content format timestamp =>
      exists c f i f',
        content = Js.Str c /\ format = Js.Str f
        /\ Store.clean c = true /\ Store.clean f = true
        /\ Store.id_param id = inr i
        /\ Store.varchar 64 f = Some f'
        /\ Store.has_paste i d = false
        /\ d' = {| Store.users := Store.users d;
                   Store.pastes := Store.pastes d
                                   ++ [{| Store.p_id := i; Store.p_content := c;
                                          Store.p_format := f';
                                          Store.p_timestamp := timestamp;
                                          Store.p_userid := None |}] |}
  | Store.InsertPasteOwned id content format userid timestamp =>
      exists c f i f' o,
        content = Js.Str c /\ format = Js.Str f
        /\ Store.clean c = true /\ Store.clean f = true
        /\ Store.id_param id = inr i
        /\ Store.varchar 64 f = Some f'
        /\ Store.has_paste i d = false
        /\ Store.id_param userid = inr o
        /\ Store.has_user o d = true
        /\ d' = {| Store.users := Store.users d;
                   Store.pastes := Store.pastes d
                                   ++ [{| Store.p_id := i; Store.p_content := c;
                                          Store.p_format := f';
                                          Store.p_timestamp := timestamp;
                                          Store.p_userid := Some o |}] |}
  | _ => d' = d
  end.
Proof.
  destruct q as [id ts | id c f ts | id c f u ts | id | id | u]; simpl; intros H.
  - destruct (Store.id_param id) as [err|i] eqn:Hi; [discriminate|].
    destruct (Store.has_user i d) eqn:Hu; [discriminate|].
    injection H as _ <-. exists i. auto.
  - destruct (Store.insert_paste id c f None ts d) as [err|d1] eqn:Hins; [discriminate|].
    injection H as _ <-.
    destruct (insert_paste_ok _ _ _ _ _ _ _ Hins)
      as (cs & fs & i & f' & -> & -> & Hc & Hf & Hi & Hv & Hp & Hu & Hps).
    exists cs, fs, i, f'. repeat split; try assumption.
    destruct d1; simpl in *. now subst.
  - destruct (Store.id_param u) as [err|o] eqn:Ho; [discriminate|].
    destruct (Store.has_user o d) eqn:Hu; simpl in H; [|discriminate].
    destruct (Store.insert_paste id c f (Some o) ts d) as [err|d1] eqn:Hins; [discriminate|].
    injection H as _ <-.
    destruct (insert_paste_ok _ _ _ _ _ _ _ Hins)
      as (cs & fs & i & f' & -> & -> & Hc & Hf & Hi & Hv & Hp & Hus & Hps).
    exists cs, fs, i, f', o. repeat split; try assumption.
    destruct d1; simpl in *. now subst.
  - now injection H as _ <-.
  - now injection H as _ <-.
  - now injection H as _ <-.
Qed.

(** X9: [validateUser] answers [true] exactly when a row of [users] carries the
    identifier and the SELECT reaches the store: an unknown identifier and an
    unreachable store are both answered [false]. *)
Theorem validateUser_true_iff id w :
  fst (validateUser id w) = true
  <-> Store.has_user id (db w) = true /\ hd true (link w) = true.
Proof.
  split.
  - intros Hv. split.
    + destruct (Store.has_user id (db w)) eqn:Hu; [reflexivity|].
      rewrite (validateUser_unknown id w Hu) in Hv. discriminate.
    + unfold validateUser, sql in Hv.
      destruct (link w) as [|[|] l]; simpl in *; [reflexivity | reflexivity | discriminate].
  - intros [Hu Hl]. now apply validateUser_known.
Qed.

(** ** Creating a user *)

Lemma create_user_cases e w resp w' :
  create_user e w = Some (resp, w') ->
  exists id,
    generateId (random e) = Some id
    /\ trace w' = trace w ++ [Store.InsertUser id (now e)]
    /\ link w' = tl (link w)
    /\ ((resp = respond 200 (Text id)
         /\ Store.has_user id (db w) = false
         /\ db w' = {| Store.users := Store.users (db w)
                                      ++ [{| Store.u_id := id;
                                             Store.u_timestamp := now e |}];
                       Store.pastes := Store.pastes (db w) |}
         /\ console w' = console w)
        \/ (resp = respond 400
                     (Text "Couldn't create user for some reason, ask devs to check the logs")
            /\ db w' = db w
            /\ exists err, console w' = console w ++ [StoreFailure err])).
Proof.
  unfold create_user. destruct (generateId (random e)) as [id|] eqn:Hid; simpl;
    [|discriminate].
  intros H. exists id. split; [reflexivity|].
  destruct (sql_frame (Store.InsertUser id (now e)) w) as (Ht & Hl & Hc & _).
  destruct (sql_cases (Store.InsertUser id (now e)) w)
    as [(err & Hf & Hd) | (res & Hf & _ & Hx)];
    [|pose proof (exec_effect _ _ _ _ Hx) as He; cbn beta iota in He; clear Hx];
    destruct (sql (Store.InsertUser id (now e)) w) as [[err'|res'] w1];
    simpl in *; try discriminate; injection H as <- <-; simpl.
  - repeat split; try assumption. right. repeat split; try assumption.
    exists err'. now rewrite Hc.
  - destruct He as (i & Hi & Hu & Hd).
    rewrite (id_param_generated _ _ Hid) in Hi. injection Hi as <-.
    repeat split; try assumption. left. repeat split; assumption.
Qed.

(** X10: a user that create-user has answered 200 for is accepted by the
    validator: [validateUser] on the returned identifier is [true] whenever
    its SELECT reaches the store. *)
Theorem created_user_is_valid e w id w1 :
  create_user e w = Some (respond 200 (Text id), w1) ->
  hd true (link w1) = true ->
  fst (validateUser id w1) = true.
Proof.
  intros Hc Hl.
  destruct (create_user_cases _ _ _ _ Hc)
    as (id' & _ & _ & _ & [(Hr & _ & Hd & _) | (Hr & _)]); [|discriminate Hr].
  injection Hr as <-.
  apply validateUser_known; [|exact Hl].
  rewrite Hd. unfold Store.has_user. simpl.
  rewrite existsb_app. simpl. rewrite same_id_refl. apply orb_true_r.
Qed.

Lemma created_user_is_valid_witness :
  fst (validateUser "ZYXWVUTSRQPONMLK"
         {| db := {| Store.users := [{| Store.u_id := "ZYXWVUTSRQPONMLK";
                                        Store.u_timestamp := 5 |}];
                     Store.pastes := [] |};
            link := []; trace := [Store.InsertUser "ZYXWVUTSRQPONMLK" 5];
            console := []; rateLimitMap := ∅ |}) = true.
Proof.
  apply (created_user_is_valid {| random := [map Z.of_nat (seq 0 45)]; now := 5 |}
           empty_world "ZYXWVUTSRQPONMLK").
  - vm_compute. reflexivity.
  - reflexivity.
Defined.

(** X11: an identifier collision is not retried: when the generated identifier is
    already the identifier of a user, create-user answers 400, logs the
    failure and leaves the store as it is. *)
Theorem create_user_collision e w id :
  generateId (random e) = Some id ->
  Store.has_user id (db w) = true ->
  exists w',
    create_user e w
    = Some (respond 400
              (Text "Couldn't create user for some reason, ask devs to check the logs"),
            w')
    /\ db w' = db w
    /\ exists err, console w' = console w ++ [StoreFailure err].
Proof.
  intros Hid Hu.
  destruct (create_user e w) as [[resp w']|] eqn:Hc.
  - destruct (create_user_cases _ _ _ _ Hc)
      as (id' & Hid' & _ & _ & [(_ & Hfresh & _) | (-> & Hd & Hlog)]).
    + rewrite Hid in Hid'. injection Hid' as <-. rewrite Hu in Hfresh. discriminate.
    + exists w'. auto.
  - unfold create_user in Hc. rewrite Hid in Hc. simpl in Hc.
    destruct (sql (Store.InsertUser id (now e)) w) as [[err|res] w1]; discriminate.
Qed.

Lemma create_user_collision_witness :
  exists w',
    create_user {| random := [map Z.of_nat (seq 0 45)]; now := 9 |}
      {| db := {| Store.users := [{| Store.u_id := "ZYXWVUTSRQPONMLK";
                                     Store.u_timestamp := 5 |}];
                  Store.pastes := [] |};
         link := []; trace := []; console := []; rateLimitMap := ∅ |}
    = Some (respond 400
              (Text "Couldn't create user for some reason, ask devs to check the logs"),
            w')
    /\ db w' = {| Store.users := [{| Store.u_id := "ZYXWVUTSRQPONMLK";
                                     Store.u_timestamp := 5 |}];
                  Store.pastes := [] |}
    /\ exists err, console w' = [] ++ [StoreFailure err].
Proof.
  apply (create_user_collision {| random := [map Z.of_nat (seq 0 45)]; now := 9 |}
           {| db := {| Store.users := [{| Store.u_id := "ZYXWVUTSRQPONMLK";
                                          Store.u_timestamp := 5 |}];
                       Store.pastes := [] |};
              link := []; trace := []; console := []; rateLimitMap := ∅ |}
           "ZYXWVUTSRQPONMLK").
  - vm_compute. reflexivity.
  - reflexivity.
Defined.

(** ** Creating a paste, further *)

Lemma create_paste_cases body e w resp w' :
  create_paste body e w = Some (resp, w') ->
  exists id,
    generateId (random e) = Some id
    /\ Store.users (db w') = Store.users (db w)
    /\ ((resp = respond 200 (Text id)
         /\ exists content format userid c f f' owner,
             body = Fields content format userid
             /\ content = Js.Str c /\ format = Js.Str f
             /\ Store.clean c = true /\ Store.clean f = true
             /\ Store.varchar 64 f = Some f'
             /\ Store.has_paste id (db w) = false
             /\ (if Js.truthy userid
                 then exists o, Store.id_param (Js.as_string userid) = inr o
                                /\ Store.has_user o (db w) = true
                                /\ owner = Some o
                 else owner = None)
             /\ Store.pastes (db w')
                = Store.pastes (db w)
                  ++ [{| Store.p_id := id; Store.p_content := c; Store.p_format := f';
                         Store.p_timestamp := now e; Store.p_userid := owner |}])
        \/ ((status resp = Some 400 \/ status resp = Some 403) /\ db w' = db w)).
Proof.
  unfold create_paste. destruct (generateId (random e)) as [id|] eqn:Hid; simpl;
    [|discriminate].
  intros H. exists id. split; [reflexivity|].
  destruct body as [|content format userid].
  - injection H as <- <-. simpl. split; [reflexivity|]. right. auto.
  - destruct (Js.truthy userid) eqn:Htr; simpl in H.
    + destruct (validateUser_frame (Js.as_string userid) w) as (_ & Hd1 & _).
      destruct (validateUser (Js.as_string userid) w) as [valid w1]. simpl in Hd1.
      destruct valid; simpl in H.
      * destruct (sql_cases (Store.InsertPasteOwned id content format
                               (Js.as_string userid) (now e)) w1)
          as [(err & Hf & Hd) | (res & Hf & _ & Hx)];
          [|pose proof (exec_effect _ _ _ _ Hx) as He; cbn beta iota in He; clear Hx];
          destruct (sql (Store.InsertPasteOwned id content format
                           (Js.as_string userid) (now e)) w1) as [[err'|res'] w2];
          simpl in *; try discriminate; injection H as <- <-; simpl.
        -- rewrite Hd, Hd1. split; [reflexivity|]. right. auto.
        -- destruct He as (c & f & i & f' & o & -> & -> & Hc & Hcf & Hi & Hv & Hp & Ho
                           & Hu & ->). simpl.
           rewrite (id_param_generated _ _ Hid) in Hi. injection Hi as Hi. subst i.
           rewrite Hd1 in *. split; [reflexivity|]. left. split; [reflexivity|].
           exists (Js.Str c), (Js.Str f), userid, c, f, f', (Some o). rewrite Htr.
           repeat split; try assumption. exists o. auto.
      * injection H as <- <-. simpl. rewrite Hd1. split; [reflexivity|]. right. auto.
    + destruct (sql_cases (Store.InsertPaste id content format (now e)) w)
        as [(err & Hf & Hd) | (res & Hf & _ & Hx)];
        [|pose proof (exec_effect _ _ _ _ Hx) as He; cbn beta iota in He; clear Hx];
        destruct (sql (Store.InsertPaste id content format (now e)) w) as [[err'|res'] w1];
        simpl in *; try discriminate; injection H as <- <-; simpl.
      * rewrite Hd. split; [reflexivity|]. right. auto.
      * destruct He as (c & f & i & f' & -> & -> & Hc & Hcf & Hi & Hv & Hp & ->). simpl.
        rewrite (id_param_generated _ _ Hid) in Hi. injection Hi as Hi. subst i.
        split; [reflexivity|]. left. split; [reflexivity|].
        exists (Js.Str c), (Js.Str f), userid, c, f, f', None. rewrite Htr.
        repeat split; assumption.
Qed.

(** X12: the create-paste handler writes exactly when it answers 200: a 200
    answer comes with exactly one new row of [pastes], whose identifier is
    the body of the answer; any other answer leaves the store as it is; and
    [users] is never written. *)
Theorem create_paste_writes_only_on_200 (payload : Json) e w resp w' :
  create_paste payload e w = Some (resp, w') ->
  Store.users (db w') = Store.users (db w)
  /\ (status resp = Some 200 ->
      exists row,
        Store.pastes (db w') = Store.pastes (db w) ++ [row]
        /\ body resp = Text (Store.p_id row))
  /\ (status resp <> Some 200 -> db w' = db w).
Proof.
  intros H.
  destruct (create_paste_cases _ _ _ _ _ H)
    as (id & _ & Hu & [(-> & ct & fm & us & c & f & f' & owner & _ & _ & _ & _ & _ & _
                         & _ & _ & Hp)
                      | ([Hs | Hs] & Hd)]).
  - split; [exact Hu|]. split.
    + intros _. eexists. split; [exact Hp | reflexivity].
    + intros Hne. now contradiction Hne.
  - split; [exact Hu|]. split; [rewrite Hs; discriminate | intros _; exact Hd].
  - split; [exact Hu|]. split; [rewrite Hs; discriminate | intros _; exact Hd].
Qed.

Lemma create_paste_writes_only_on_200_witness :
  let e := {| random := [map Z.of_nat (seq 0 45)]; now := 5 |} in
  let w' := {| db := {| Store.users := [];
                        Store.pastes := [{| Store.p_id := "ZYXWVUTSRQPONMLK";
                                            Store.p_content := "hello";
                                            Store.p_format := "text";
                                            Store.p_timestamp := 5;
                                            Store.p_userid := None |}] |};
               link := [];
               trace := [Store.InsertPaste "ZYXWVUTSRQPONMLK" (Js.Str "hello")
                           (Js.Str "text") 5];
               console := []; rateLimitMap := ∅ |} in
  Store.users (db w') = Store.users (db empty_world)
  /\ (status (respond 200 (Text "ZYXWVUTSRQPONMLK")) = Some 200 ->
      exists row,
        Store.pastes (db w') = Store.pastes (db empty_world) ++ [row]
        /\ body (respond 200 (Text "ZYXWVUTSRQPONMLK")) = Text (Store.p_id row))
  /\ (status (respond 200 (Text "ZYXWVUTSRQPONMLK")) <> Some 200 -> db w' = db empty_world).
Proof.
  intros e w'.
  apply (create_paste_writes_only_on_200
           (Fields (Js.Str "hello") (Js.Str "text") Js.Undefined) e empty_world).
  vm_compute. reflexivity.
Defined.

(** X13: a body that is [null], or whose [content] or [format] is missing or
    [null], never produces a paste: the answer is not 200 and the store is
    left as it is. *)
Theorem create_paste_rejects_malformed_body body e w resp w' :
  match body with
  | Fields (Js.Str _) (Js.Str _) _ => False
  | _ => True
  end ->
  create_paste body e w = Some (resp, w') ->
  status resp <> Some 200 /\ db w' = db w.
Proof.
  intros Hbad H.
  destruct (create_paste_cases _ _ _ _ _ H)
    as (id & _ & _ & [(_ & ct & fm & us & c & f & f' & owner & -> & -> & -> & _)
                     | ([Hs | Hs] & Hd)]).
  - destruct Hbad.
  - split; [rewrite Hs; discriminate | exact Hd].
  - split; [rewrite Hs; discriminate | exact Hd].
Qed.

Lemma create_paste_rejects_malformed_body_witness :
  status (respond 400
            (Text "Couldn't create paste for some reason, ask devs to check the logs"))
  <> Some 200
  /\ db {| db := db empty_world; link := [];
           trace := [Store.InsertPaste "ZYXWVUTSRQPONMLK" (Js.Str "hello") Js.Undefined 5];
           console := [StoreFailure Store.UndefinedParameter]; rateLimitMap := ∅ |}
     = db empty_world.
Proof.
  apply (create_paste_rejects_malformed_body
           (Fields (Js.Str "hello") Js.Undefined Js.Undefined)
           {| random := [map Z.of_nat (seq 0 45)]; now := 5 |} empty_world).
  - exact I.
  - vm_compute. reflexivity.
Defined.

(** X14: a create-paste request with a userid that a user carries, a fresh
    generated identifier, values without NUL and a format and a userid that
    their columns store, both of whose statements reach the store, is
    answered 200: the validator's SELECT is followed by the five-column
    INSERT, and the new row carries the content, the format as stored and,
    as its owner, the userid as its CHARACTER(16) column stores it. *)
Theorem create_paste_owned_succeeds (c f f' u o : string) e w id :
  u <> EmptyString ->
  generateId (random e) = Some id ->
  Store.has_user u (db w) = true ->
  Store.clean c = true ->
  Store.clean f = true ->
  Store.clean u = true ->
  Store.varchar 64 f = Some f' ->
  Store.character 16 u = Some o ->
  Store.has_paste id (db w) = false ->
  hd true (link w) = true ->
  hd true (tl (link w)) = true ->
  exists w',
    create_paste (Fields (Js.Str c) (Js.Str f) (Js.Str u)) e w
    = Some (respond 200 (Text id), w')
    /\ Store.pastes (db w')
       = Store.pastes (db w)
         ++ [{| Store.p_id := id; Store.p_content := c; Store.p_format := f';
                Store.p_timestamp := now e; Store.p_userid := Some o |}]
    /\ trace w'
       = trace w ++ [Store.SelectUser u;
                     Store.InsertPasteOwned id (Js.Str c) (Js.Str f) u (now e)].
Proof.
  intros Hu Hid Huser Hc Hf Hcu Hv Ho Hfresh Hl1 Hl2.
  unfold create_paste. rewrite Hid. simpl.
  apply String.eqb_neq in Hu. rewrite Hu. simpl.
  pose proof (validateUser_known u w Huser Hl1) as Hval.
  destruct (validateUser_frame u w) as (Ht & Hd & Hl & _).
  destruct (validateUser u w) as [valid w1]. simpl in *. subst valid. simpl.
  rewrite <- Hl in Hl2. rewrite (sql_reached _ _ Hl2). simpl.
  rewrite Hd. unfold Store.id_param at 1. rewrite Hcu, Ho.
  rewrite (has_user_character 16 u o (db w) Ho), Huser. simpl.
  rewrite (insert_paste_accepts id id c f f' (Some o) (now e) (db w) Hc Hf
             (id_param_generated _ _ Hid) Hv Hfresh).
  eexists. split; [reflexivity|]. simpl.
  split; [reflexivity|]. rewrite Ht, <- app_assoc. reflexivity.
Qed.

Lemma create_paste_owned_succeeds_witness :
  let w := {| db := {| Store.users := [{| Store.u_id := "OWNER00000000001";
                                          Store.u_timestamp := 1 |}];
                       Store.pastes := [] |};
              link := []; trace := []; console := []; rateLimitMap := ∅ |} in
  let e := {| random := [map Z.of_nat (seq 0 45)]; now := 5 |} in
  exists w',
    create_paste (Fields (Js.Str "hello") (Js.Str "text") (Js.Str "OWNER00000000001  ")) e w
    = Some (respond 200 (Text "ZYXWVUTSRQPONMLK"), w')
    /\ Store.pastes (db w')
       = Store.pastes (db w)
         ++ [{| Store.p_id := "ZYXWVUTSRQPONMLK"; Store.p_content := "hello";
                Store.p_format := "text"; Store.p_timestamp := now e;
                Store.p_userid := Some "OWNER00000000001" |}]
    /\ trace w'
       = trace w ++ [Store.SelectUser "OWNER00000000001  ";
                     Store.InsertPasteOwned "ZYXWVUTSRQPONMLK" (Js.Str "hello")
                       (Js.Str "text") "OWNER00000000001  " (now e)].
Proof.
  intros w e.
  apply (create_paste_owned_succeeds "hello" "text" "text" "OWNER00000000001  "
           "OWNER00000000001" e w "ZYXWVUTSRQPONMLK").
  - discriminate.
  - vm_compute. reflexivity.
  - reflexivity.
  - reflexivity.
  - reflexivity.
  - reflexivity.
  - reflexivity.
  - reflexivity.
  - reflexivity.
  - reflexivity.
  - reflexivity.
Defined.

Lemma length_snoc_nonzero {A} (l : list A) (a : A) :
  (Z.of_nat (length (l ++ [a])) =? 0) = false.
Proof. rewrite length_app. simpl. apply Z.eqb_neq. lia. Qed.

(** X15: a paste created for an owner is listed for that owner: after a
    create-paste request with a userid has been answered 200, a read-pastes
    request for that userid whose SELECT on [pastes] reaches the store is
    answered 200, and one of its rows carries the returned identifier, the
    submitted content, the format as its column stores it and, as owner, the
    userid as its column stores it. *)
Theorem owned_paste_is_listed content format (u : string) e w id w1 :
  u <> EmptyString ->
  create_paste (Fields content format (Js.Str u)) e w = Some (respond 200 (Text id), w1) ->
  hd true (tl (link w1)) = true ->
  exists rows row f o,
    fst (read_pastes (Js.Str u) w1) = respond 200 (Rows (Store.Pastes rows))
    /\ In row rows
    /\ Store.p_id row = id
    /\ Js.Str (Store.p_content row) = content
    /\ format = Js.Str f
    /\ Store.varchar 64 f = Some (Store.p_format row)
    /\ Store.p_userid row = Some o
    /\ Store.character 16 u = Some o
    /\ Store.same_id o u = true.
Proof.
  intros Hu Hc Hl.
  destruct (create_paste_cases _ _ _ _ _ Hc)
    as (id' & _ & _ & [(Hr & ct & fm & us & c & f & f' & owner & Hb & -> & -> & _ & _
                        & Hv & _ & Ho & Hp)
                      | ([Hs | Hs] & _)]); try discriminate Hs.
  injection Hr as <-. injection Hb as -> -> <-.
  apply String.eqb_neq in Hu. simpl in Ho. rewrite Hu in Ho. simpl in Ho.
  destruct Ho as (o & Hio & _ & ->).
  unfold Store.id_param in Hio.
  destruct (Store.clean u); [|discriminate].
  destruct (Store.character 16 u) as [o'|] eqn:Hch; [|discriminate].
  injection Hio as ->.
  assert (Hsame : Store.same_id o u = true)
    by (rewrite <- (same_id_character 16 u o o Hch); apply same_id_refl).
  unfold read_pastes. simpl. rewrite Hu. simpl.
  destruct (validateUser_frame u w1) as (_ & Hd & Hl1 & _).
  destruct (validateUser u w1) as [valid w2]. simpl in *.
  rewrite <- Hl1 in Hl. rewrite (sql_reached _ _ Hl). simpl.
  rewrite Hd, Hp, List.filter_app. simpl. rewrite Hsame.
  rewrite length_snoc_nonzero. simpl.
  eexists _, _, f, o. split; [reflexivity|]. split.
  - apply in_or_app. right. left. reflexivity.
  - simpl. auto 10.
Qed.

Lemma owned_paste_is_listed_witness :
  exists rows row f o,
    fst (read_pastes (Js.Str "OWNER00000000001  ")
           {| db := {| Store.users := [{| Store.u_id := "OWNER00000000001";
                                          Store.u_timestamp := 1 |}];
                       Store.pastes := [{| Store.p_id := "ZYXWVUTSRQPONMLK";
                                           Store.p_content := "hello";
                                           Store.p_format := "text";
                                           Store.p_timestamp := 5;
                                           Store.p_userid := Some "OWNER00000000001" |}] |};
              link := [];
              trace := [Store.SelectUser "OWNER00000000001  ";
                        Store.InsertPasteOwned "ZYXWVUTSRQPONMLK" (Js.Str "hello")
                          (Js.Str "text") "OWNER00000000001  " 5];
              console := []; rateLimitMap := ∅ |})
    = respond 200 (Rows (Store.Pastes rows))
    /\ In row rows
    /\ Store.p_id row = "ZYXWVUTSRQPONMLK"
    /\ Js.Str (Store.p_content row) = Js.Str "hello"
    /\ Js.Str "text" = Js.Str f
    /\ Store.varchar 64 f = Some (Store.p_format row)
    /\ Store.p_userid row = Some o
    /\ Store.character 16 "OWNER00000000001  " = Some o
    /\ Store.same_id o "OWNER00000000001  " = true.
Proof.
  apply (owned_paste_is_listed (Js.Str "hello") (Js.Str "text") "OWNER00000000001  "
           {| random := [map Z.of_nat (seq 0 45)]; now := 5 |}
           {| db := {| Store.users := [{| Store.u_id := "OWNER00000000001";
                                          Store.u_timestamp := 1 |}];
                       Store.pastes := [] |};
              link := []; trace := []; console := []; rateLimitMap := ∅ |}).
  - discriminate.
  - vm_compute. reflexivity.
  - reflexivity.
Defined.

(** ** Reading, further *)

Lemma filter_absent (s : string) (l : list Store.PasteRow) :
  ~ In (Store.rtrim s) (map (fun p => Store.rtrim (Store.p_id p)) l) ->
  List.filter (fun p => Store.same_id (Store.p_id p) s) l = [].
Proof.
  induction l as [|a l IH]; simpl; intros Hn; [reflexivity|].
  unfold Store.same_id at 1.
  destruct (String.eqb_spec (Store.rtrim (Store.p_id a)) (Store.rtrim s)) as [Heq | Hne].
  - exfalso. apply Hn. now left.
  - apply IH. intros Hin. apply Hn. now right.
Qed.

Lemma filter_unique (s : string) (l : list Store.PasteRow) :
  NoDup (map (fun p => Store.rtrim (Store.p_id p)) l) ->
  existsb (fun p => Store.same_id (Store.p_id p) s) l = true ->
  exists row,
    List.filter (fun p => Store.same_id (Store.p_id p) s) l = [row]
    /\ Store.same_id (Store.p_id row) s = true /\ In row l.
Proof.
  induction l as [|a l IH]; simpl; intros Hnd Hex; [discriminate|].
  apply NoDup_cons in Hnd as [Hna Hnd]. rewrite list_elem_of_In in Hna.
  destruct (Store.same_id (Store.p_id a) s) eqn:Heq.
  - exists a. unfold Store.same_id in Heq. apply String.eqb_eq in Heq.
    rewrite Heq in Hna. rewrite (filter_absent _ _ Hna).
    unfold Store.same_id. rewrite Heq, String.eqb_refl. auto.
  - simpl in Hex. destruct (IH Hnd Hex) as (row & Hf & Hid & Hin).
    exists row. auto.
Qed.

(** X18: a read-paste request for an identifier without NUL that no paste
    carries is answered 404 when its SELECT reaches the store. *)
Theorem read_paste_unknown_id (s : string) w :
  s <> EmptyString ->
  Store.clean s = true ->
  Store.has_paste s (db w) = false ->
  hd true (link w) = true ->
  fst (read_paste (Js.Str s) w)
  = respond 404 (Text ("No paste with id " +:+ s +:+ " found")).
Proof.
  intros Hs _ Hno Hl. apply String.eqb_neq in Hs.
  unfold read_paste. simpl. rewrite Hs. simpl.
  rewrite (sql_reached _ _ Hl). simpl.
  unfold Store.has_paste in Hno. rewrite (filter_none _ _ Hno). reflexivity.
Qed.

Lemma read_paste_unknown_id_witness :
  fst (read_paste (Js.Str "NEVERCREATED0000") empty_world)
  = respond 404 (Text ("No paste with id " +:+ "NEVERCREATED0000" +:+ " found")).
Proof.
  apply (read_paste_unknown_id "NEVERCREATED0000" empty_world).
  - discriminate.
  - reflexivity.
  - reflexivity.
  - reflexivity.
Defined.

(** X19: in a store whose paste identifiers are unique, a read-paste request
    for an identifier that a paste carries, whose SELECT reaches the store, is
    answered 200 with exactly one row: the stored paste with that identifier
    (the stored identifier itself when the request gives it as stored). *)
Theorem read_paste_returns_the_paste (s : string) w :
  unique_ids (db w) ->
  s <> EmptyString ->
  Store.has_paste s (db w) = true ->
  hd true (link w) = true ->
  exists row,
    fst (read_paste (Js.Str s) w) = respond 200 (Rows (Store.Pastes [row]))
    /\ Store.same_id (Store.p_id row) s = true
    /\ In row (Store.pastes (db w))
    /\ (In s (map Store.p_id (Store.pastes (db w))) -> Store.p_id row = s).
Proof.
  intros [_ Hnd] Hs Hyes Hl. apply String.eqb_neq in Hs.
  unfold read_paste. simpl. rewrite Hs. simpl.
  rewrite (sql_reached _ _ Hl). simpl.
  destruct (filter_unique s _ Hnd Hyes) as (row & Hf & Hid & Hin).
  rewrite Hf. exists row. repeat split; try assumption.
  intros Hstored. apply in_map_iff in Hstored as (r0 & Hr0 & Hin0).
  assert (Hmem : In r0 (List.filter (fun p => Store.same_id (Store.p_id p) s)
                          (Store.pastes (db w)))).
  { apply filter_In. split; [exact Hin0|]. rewrite Hr0. apply same_id_refl. }
  rewrite Hf in Hmem. destruct Hmem as [<- | []]. exact Hr0.
Qed.

Lemma read_paste_returns_the_paste_witness :
  let w := {| db := {| Store.users := [];
                       Store.pastes := [{| Store.p_id := "AAAAAAAAAAAAAAAA";
                                           Store.p_content := "one";
                                           Store.p_format := "text";
                                           Store.p_timestamp := 1;
                                           Store.p_userid := None |};
                                        {| Store.p_id := "BBBBBBBBBBBBBBBB";
                                           Store.p_content := "two";
                                           Store.p_format := "text";
                                           Store.p_timestamp := 2;
                                           Store.p_userid := None |}] |};
              link := []; trace := []; console := []; rateLimitMap := ∅ |} in
  exists row,
    fst (read_paste (Js.Str "BBBBBBBBBBBBBBBB") w) = respond 200 (Rows (Store.Pastes [row]))
    /\ Store.same_id (Store.p_id row) "BBBBBBBBBBBBBBBB" = true
    /\ In row (Store.pastes (db w))
    /\ (In "BBBBBBBBBBBBBBBB" (map Store.p_id (Store.pastes (db w))) ->
        Store.p_id row = "BBBBBBBBBBBBBBBB").
Proof.
  intros w. apply (read_paste_returns_the_paste "BBBBBBBBBBBBBBBB" w).
  - split; simpl; [constructor|].
    constructor; [|constructor; [|constructor]];
      rewrite list_elem_of_In; simpl; intuition discriminate.
  - discriminate.
  - reflexivity.
  - reflexivity.
Defined.

Lemma read_paste_keeps_db id w : db (snd (read_paste id w)) = db w.
Proof.
  unfold read_paste. destruct (negb (Js.truthy id) || Js.not_string id); [reflexivity|].
  pose proof (select_keeps_db (Store.SelectPaste (Js.as_string id)) w I) as Hd.
  destruct (sql (Store.SelectPaste (Js.as_string id)) w) as [[err|res] w1]; simpl in *;
    [exact Hd|].
  destruct (Store.result_length res =? 0); exact Hd.
Qed.

Lemma read_pastes_keeps_db id w : db (snd (read_pastes id w)) = db w.
Proof.
  unfold read_pastes. destruct (negb (Js.truthy id) || Js.not_string id); [reflexivity|].
  destruct (validateUser_frame (Js.as_string id) w) as (_ & Hd1 & _).
  destruct (validateUser (Js.as_string id) w) as [valid w1]. simpl in *.
  pose proof (select_keeps_db (Store.SelectPastesOf (Js.as_string id)) w1 I) as Hd.
  destruct (sql (Store.SelectPastesOf (Js.as_string id)) w1) as [[err|res] w2]; simpl in *;
    [congruence|].
  destruct (Store.result_length res =? 0); simpl; congruence.
Qed.

(** X20: the two read handlers never write: whatever the parameter and whatever
    the fate of their statements, the store after the request is the store
    before it. *)
Theorem reads_never_write id w :
  db (snd (read_paste id w)) = db w /\ db (snd (read_pastes id w)) = db w.
Proof. split; [apply read_paste_keeps_db | apply read_pastes_keeps_db]. Qed.

(** X21: the rows of a 200 answer of read-pastes are exactly the stored
    pastes whose owner is the requested identifier, compared as CHARACTER
    values: none is missing, and no paste of another owner and no anonymous
    paste is among them. *)
Theorem read_pastes_lists_the_owners_pastes (s : string) w rows :
  s <> EmptyString ->
  fst (read_pastes (Js.Str s) w) = respond 200 (Rows (Store.Pastes rows)) ->
  rows <> []
  /\ forall p,
      In p rows
      <-> In p (Store.pastes (db w))
          /\ exists o, Store.p_userid p = Some o /\ Store.same_id o s = true.
Proof.
  intros Hs. apply String.eqb_neq in Hs.
  unfold read_pastes. simpl. rewrite Hs. simpl.
  destruct (validateUser_frame s w) as (_ & Hd1 & _).
  destruct (validateUser s w) as [valid w1]. simpl in *.
  destruct (sql_cases (Store.SelectPastesOf s) w1)
    as [(err & Hf & _) | (res & Hf & _ & Hx)];
    destruct (sql (Store.SelectPastesOf s) w1) as [[err'|res'] w2];
    simpl in *; try discriminate.
  injection Hf as ->. injection Hx as <- _. simpl.
  rewrite Hd1.
  set (owned := List.filter _ (Store.pastes (db w))).
  destruct (Z.of_nat (length owned) =? 0) eqn:Hlen; simpl; [discriminate|].
  intros [= <-]. split.
  - intros Hnil. rewrite Hnil in Hlen. discriminate.
  - intros p. unfold owned. rewrite filter_In. split.
    + intros [Hin Ho]. split; [exact Hin|].
      destruct (Store.p_userid p) as [o|]; [|discriminate].
      exists o. auto.
    + intros [Hin (o & Ho & Hsame)]. split; [exact Hin|]. now rewrite Ho.
Qed.

Lemma read_pastes_lists_the_owners_pastes_witness :
  let mine := {| Store.p_id := "AAAAAAAAAAAAAAAA"; Store.p_content := "one";
                 Store.p_format := "text"; Store.p_timestamp := 1;
                 Store.p_userid := Some "OWNER00000000001" |} in
  let anonymous := {| Store.p_id := "BBBBBBBBBBBBBBBB"; Store.p_content := "two";
                      Store.p_format := "text"; Store.p_timestamp := 2;
                      Store.p_userid := None |} in
  let w := {| db := {| Store.users := [{| Store.u_id := "OWNER00000000001";
                                          Store.u_timestamp := 0 |}];
                       Store.pastes := [mine; anonymous] |};
              link := []; trace := []; console := []; rateLimitMap := ∅ |} in
  [mine] <> []
  /\ forall p,
      In p [mine]
      <-> In p (Store.pastes (db w))
          /\ exists o, Store.p_userid p = Some o
                       /\ Store.same_id o "OWNER00000000001 " = true.
Proof.
  intros mine anonymous w.
  apply (read_pastes_lists_the_owners_pastes "OWNER00000000001 " w [mine]).
  - discriminate.
  - reflexivity.
Defined.

(** X22: read-pastes answers an identifier without NUL that owns no paste
    with 404 and the message that no such user was found, whether or not a
    user carries the identifier. *)
Theorem read_pastes_without_pastes (s : string) w :
  s <> EmptyString ->
  Store.clean s = true ->
  (forall p o, In p (Store.pastes (db w)) ->
               Store.p_userid p = Some o -> Store.same_id o s = false) ->
  hd true (tl (link w)) = true ->
  fst (read_pastes (Js.Str s) w)
  = respond 404 (Text ("No user with id " +:+ s +:+ " found")).
Proof.
  intros Hs _ Hnone Hl. apply String.eqb_neq in Hs.
  unfold read_pastes. simpl. rewrite Hs. simpl.
  destruct (validateUser_frame s w) as (_ & Hd1 & Hl1 & _).
  destruct (validateUser s w) as [valid w1]. simpl in *.
  rewrite <- Hl1 in Hl. rewrite (sql_reached _ _ Hl). simpl. rewrite Hd1.
  rewrite filter_none; [reflexivity|].
  apply not_true_is_false. intros Hex.
  apply existsb_exists in Hex as (p & Hin & Ho).
  destruct (Store.p_userid p) as [o|] eqn:Hp; [|discriminate].
  rewrite (Hnone p o Hin Hp) in Ho. discriminate.
Qed.

Lemma read_pastes_without_pastes_witness :
  fst (read_pastes (Js.Str "OWNER00000000001")
         {| db := {| Store.users := [{| Store.u_id := "OWNER00000000001";
                                        Store.u_timestamp := 0 |}];
                     Store.pastes := [] |};
            link := []; trace := []; console := []; rateLimitMap := ∅ |})
  = respond 404 (Text ("No user with id " +:+ "OWNER00000000001" +:+ " found")).
Proof.
  apply (read_pastes_without_pastes "OWNER00000000001").
  - discriminate.
  - reflexivity.
  - intros p o [].
  - reflexivity.
Defined.

(** * Further properties of the application *)

(** What a handler can do to the store: nothing, or append one user with a
    fresh generated identifier, or append one paste with a fresh generated
    identifier whose owner, if it has one, is a user. *)
Lemma handler_writes r req e w resp w' :
  handler r req e w = Some (resp, w') ->
  db w' = db w
  \/ (exists id,
        generateId (random e) = Some id
        /\ Store.has_user id (db w) = false
        /\ Store.users (db w')
           = Store.users (db w) ++ [{| Store.u_id := id; Store.u_timestamp := now e |}]
        /\ Store.pastes (db w') = Store.pastes (db w))
  \/ (exists id row,
        generateId (random e) = Some id
        /\ Store.has_paste id (db w) = false
        /\ Store.p_id row = id
        /\ match Store.p_userid row with
           | Some o => Store.has_user o (db w) = true
           | None => True
           end
        /\ Store.users (db w') = Store.users (db w)
        /\ Store.pastes (db w') = Store.pastes (db w) ++ [row]).
Proof.
  destruct r as [| |id|id]; simpl; intros H.
  - destruct (create_user_cases _ _ _ _ H)
      as (id & Hid & _ & _ & [(_ & Hu & Hd & _) | (_ & Hd & _)]).
    + right. left. exists id. rewrite Hd. simpl. auto.
    + now left.
  - destruct (create_paste_cases _ _ _ _ _ H)
      as (id & Hid & Hu & [(_ & ct & fm & us & c & f & f' & owner & _ & _ & _ & _ & _ & _
                            & Hp & Ho & Hps)
                          | (_ & Hd)]).
    + right. right. eexists id, _. repeat split; try eassumption; try reflexivity.
      simpl. destruct (Js.truthy us).
      * destruct Ho as (o & _ & Huser & ->). exact Huser.
      * subst owner. exact I.
    + now left.
  - left. injection H as H. rewrite <- (read_paste_keeps_db (Js.Str id) w), H. reflexivity.
  - left. injection H as H. rewrite <- (read_pastes_keeps_db (Js.Str id) w), H. reflexivity.
Qed.

Lemma app_writes allowed req e w resp w' :
  app allowed req e w = Some (resp, w') ->
  db w' = db w
  \/ (exists id,
        generateId (random e) = Some id
        /\ Store.has_user id (db w) = false
        /\ Store.users (db w')
           = Store.users (db w) ++ [{| Store.u_id := id; Store.u_timestamp := now e |}]
        /\ Store.pastes (db w') = Store.pastes (db w))
  \/ (exists id row,
        generateId (random e) = Some id
        /\ Store.has_paste id (db w) = false
        /\ Store.p_id row = id
        /\ match Store.p_userid row with
           | Some o => Store.has_user o (db w) = true
           | None => True
           end
        /\ Store.users (db w') = Store.users (db w)
        /\ Store.pastes (db w') = Store.pastes (db w) ++ [row]).
Proof.
  intros H. destruct (match_route req) as [r|] eqn:Hr.
  - rewrite (routed_request_bypasses_rateLimiter allowed req e w r Hr) in H.
    now apply handler_writes in H.
  - left. now destruct (unrouted_request_issues_nothing allowed req e w resp w' Hr H).
Qed.

Lemma absent_user (id : string) (d : Store.Db) :
  Store.has_user id d = false ->
  ~ In (Store.rtrim id) (map (fun u => Store.rtrim (Store.u_id u)) (Store.users d)).
Proof.
  unfold Store.has_user. intros Hno Hin.
  apply in_map_iff in Hin as (u & Hu & Hin).
  assert (Hex : existsb (fun u => Store.same_id (Store.u_id u) id) (Store.users d) = true)
    by (apply existsb_exists; exists u; split;
        [exact Hin | unfold Store.same_id; now apply String.eqb_eq]).
  congruence.
Qed.

Lemma absent_paste (id : string) (d : Store.Db) :
  Store.has_paste id d = false ->
  ~ In (Store.rtrim id) (map (fun p => Store.rtrim (Store.p_id p)) (Store.pastes d)).
Proof.
  unfold Store.has_paste. intros Hno Hin.
  apply in_map_iff in Hin as (p & Hp & Hin).
  assert (Hex : existsb (fun p => Store.same_id (Store.p_id p) id) (Store.pastes d) = true)
    by (apply existsb_exists; exists p; split;
        [exact Hin | unfold Store.same_id; now apply String.eqb_eq]).
  congruence.
Qed.

Lemma NoDup_snoc (l : list string) (x : string) :
  NoDup l -> ~ In x l -> NoDup (l ++ [x]).
Proof.
  intros Hnd Hx. apply NoDup_app. split; [exact Hnd|]. split.
  - intros y Hy Hyx. apply list_elem_of_In in Hy.
    apply list_elem_of_singleton in Hyx. now subst.
  - apply NoDup_singleton.
Qed.

(** X23: every request, routed or not, keeps identifiers unique: if no two users
    and no two pastes share an identifier before a request, none do after
    it. *)
Theorem app_keeps_ids_unique allowed req e w resp w' :
  app allowed req e w = Some (resp, w') ->
  unique_ids (db w) ->
  unique_ids (db w').
Proof.
  intros H [Hu Hp].
  destruct (app_writes _ _ _ _ _ _ H)
    as [-> | [(id & _ & Hfresh & Hus & Hps)
             | (id & row & _ & Hfresh & Hid & _ & Hus & Hps)]]; unfold unique_ids.
  - now split.
  - rewrite Hus, Hps, map_app. simpl. split; [|exact Hp].
    apply NoDup_snoc; [exact Hu | now apply absent_user].
  - rewrite Hus, Hps, map_app. simpl. split; [exact Hu|]. rewrite Hid.
    apply NoDup_snoc; [exact Hp | now apply absent_paste].
Qed.

Lemma app_keeps_ids_unique_witness :
  unique_ids
    {| Store.users := [{| Store.u_id := "ZYXWVUTSRQPONMLK"; Store.u_timestamp := 5 |}];
       Store.pastes := [] |}.
Proof.
  apply (app_keeps_ids_unique (fun _ r => r)
           {| ip := "10.0.0.7"; method := GET; path := ["create-user"]; json := JsonNull |}
           {| random := [map Z.of_nat (seq 0 45)]; now := 5 |} empty_world
           (respond 200 (Text "ZYXWVUTSRQPONMLK"))
           {| db := {| Store.users := [{| Store.u_id := "ZYXWVUTSRQPONMLK";
                                          Store.u_timestamp := 5 |}];
                       Store.pastes := [] |};
              link := []; trace := [Store.InsertUser "ZYXWVUTSRQPONMLK" 5];
              console := []; rateLimitMap := ∅ |}).
  - vm_compute. reflexivity.
  - split; constructor.
Defined.

Lemma has_user_grows (o : string) (d d' : Store.Db) extra :
  Store.users d' = Store.users d ++ extra ->
  Store.has_user o d = true -> Store.has_user o d' = true.
Proof.
  unfold Store.has_user. intros -> H. rewrite existsb_app, H. reflexivity.
Qed.

(** X24: every request keeps the owner linkage sound: if the owner of every
    owned paste is a user before a request, it is so after it. *)
Theorem app_keeps_owners_valid allowed req e w resp w' :
  app allowed req e w = Some (resp, w') ->
  owners_exist (db w) ->
  owners_exist (db w').
Proof.
  intros H Ho.
  destruct (app_writes _ _ _ _ _ _ H)
    as [-> | [(id & _ & _ & Hus & Hps)
             | (id & row & _ & _ & _ & Hrow & Hus & Hps)]]; unfold owners_exist in *.
  - exact Ho.
  - rewrite Hps. eapply List.Forall_impl; [|exact Ho].
    intros p. cbn beta. destruct (Store.p_userid p) as [o|]; [|trivial].
    now apply (has_user_grows o (db w) (db w') _ Hus).
  - assert (Hsame : forall o, Store.has_user o (db w) = true ->
                              Store.has_user o (db w') = true).
    { intros o. apply (has_user_grows o (db w) (db w') []). now rewrite app_nil_r. }
    rewrite Hps. apply Forall_app. split.
    + eapply List.Forall_impl; [|exact Ho].
      intros p. cbn beta. destruct (Store.p_userid p) as [o|]; [apply Hsame | trivial].
    + constructor; [|constructor].
      destruct (Store.p_userid row) as [o|]; [now apply Hsame | trivial].
Qed.

Lemma app_keeps_owners_valid_witness :
  owners_exist
    {| Store.users := [{| Store.u_id := "OWNER00000000001"; Store.u_timestamp := 1 |}];
       Store.pastes := [{| Store.p_id := "ZYXWVUTSRQPONMLK"; Store.p_content := "hello";
                           Store.p_format := "text"; Store.p_timestamp := 5;
                           Store.p_userid := Some "OWNER00000000001" |}] |}.
Proof.
  apply (app_keeps_owners_valid (fun _ r => r)
           {| ip := "10.0.0.7"; method := POST; path := ["create-paste"];
              json := Fields (Js.Str "hello") (Js.Str "text") (Js.Str "OWNER00000000001") |}
           {| random := [map Z.of_nat (seq 0 45)]; now := 5 |}
           {| db := {| Store.users := [{| Store.u_id := "OWNER00000000001";
                                          Store.u_timestamp := 1 |}];
                       Store.pastes := [] |};
              link := []; trace := []; console := []; rateLimitMap := ∅ |}
           (respond 200 (Text "ZYXWVUTSRQPONMLK"))
           {| db := {| Store.users := [{| Store.u_id := "OWNER00000000001";
                                          Store.u_timestamp := 1 |}];
                       Store.pastes := [{| Store.p_id := "ZYXWVUTSRQPONMLK";
                                           Store.p_content := "hello";
                                           Store.p_format := "text";
                                           Store.p_timestamp := 5;
                                           Store.p_userid := Some "OWNER00000000001" |}] |};
              link := [];
              trace := [Store.SelectUser "OWNER00000000001";
                        Store.InsertPasteOwned "ZYXWVUTSRQPONMLK" (Js.Str "hello")
                          (Js.Str "text") "OWNER00000000001" 5];
              console := []; rateLimitMap := ∅ |}).
  - vm_compute. reflexivity.
  - constructor.
Defined.

(** X25: every identifier the application stores is a generated one: if all
    stored user and paste identifiers have 16 characters, each a digit or an
    uppercase letter, before a request, they all do after it. *)
Theorem app_keeps_ids_well_formed allowed req e w resp w' :
  app allowed req e w = Some (resp, w') ->
  ids_well_formed (db w) ->
  ids_well_formed (db w').
Proof.
  intros H [Hu Hp].
  destruct (app_writes _ _ _ _ _ _ H)
    as [-> | [(id & Hid & _ & Hus & Hps)
             | (id & row & Hid & _ & Hrow & _ & Hus & Hps)]]; unfold ids_well_formed.
  - now split.
  - destruct (generated_id_shape _ _ Hid) as (Hlen & _ & Hdig).
    rewrite Hus, Hps. split; [|exact Hp].
    apply Forall_app. split; [exact Hu|]. constructor; [|constructor].
    simpl. now split.
  - destruct (generated_id_shape _ _ Hid) as (Hlen & _ & Hdig).
    rewrite Hus, Hps. split; [exact Hu|].
    apply Forall_app. split; [exact Hp|]. constructor; [|constructor].
    rewrite Hrow. now split.
Qed.

Lemma app_keeps_ids_well_formed_witness :
  ids_well_formed
    {| Store.users := [{| Store.u_id := "ZYXWVUTSRQPONMLK"; Store.u_timestamp := 5 |}];
       Store.pastes := [] |}.
Proof.
  apply (app_keeps_ids_well_formed (fun _ r => r)
           {| ip := "10.0.0.7"; method := GET; path := ["create-user"]; json := JsonNull |}
           {| random := [map Z.of_nat (seq 0 45)]; now := 5 |} empty_world
           (respond 200 (Text "ZYXWVUTSRQPONMLK"))
           {| db := {| Store.users := [{| Store.u_id := "ZYXWVUTSRQPONMLK";
                                          Store.u_timestamp := 5 |}];
                       Store.pastes := [] |};
              link := []; trace := [Store.InsertUser "ZYXWVUTSRQPONMLK" 5];
              console := []; rateLimitMap := ∅ |}).
  - vm_compute. reflexivity.
  - split; constructor.
Defined.

(** X26: the store only grows, and by at most one row per request: no request
    removes or changes a stored user or paste. *)
Theorem app_is_append_only allowed req e w resp w' :
  app allowed req e w = Some (resp, w') ->
  exists new_users new_pastes,
    Store.users (db w') = Store.users (db w) ++ new_users
    /\ Store.pastes (db w') = Store.pastes (db w) ++ new_pastes
    /\ (length new_users + length new_pastes <= 1)%nat.
Proof.
  intros H.
  destruct (app_writes _ _ _ _ _ _ H)
    as [-> | [(id & _ & _ & Hus & Hps)
             | (id & row & _ & _ & _ & _ & Hus & Hps)]].
  - exists [], []. rewrite !app_nil_r. simpl. split; [reflexivity | split; [reflexivity | lia]].
  - exists [{| Store.u_id := id; Store.u_timestamp := now e |}], [].
    rewrite app_nil_r. simpl. split; [exact Hus | split; [exact Hps | lia]].
  - exists [], [row].
    rewrite app_nil_r. simpl. split; [exact Hus | split; [exact Hps | lia]].
Qed.

Lemma app_is_append_only_witness :
  exists new_users new_pastes,
    [{| Store.u_id := "ZYXWVUTSRQPONMLK"; Store.u_timestamp := 5 |}]
    = Store.users (db empty_world) ++ new_users
    /\ [] = Store.pastes (db empty_world) ++ new_pastes
    /\ (length new_users + length new_pastes <= 1)%nat.
Proof.
  apply (app_is_append_only (fun _ r => r)
           {| ip := "10.0.0.7"; method := GET; path := ["create-user"]; json := JsonNull |}
           {| random := [map Z.of_nat (seq 0 45)]; now := 5 |} empty_world
           (respond 200 (Text "ZYXWVUTSRQPONMLK"))
           {| db := {| Store.users := [{| Store.u_id := "ZYXWVUTSRQPONMLK";
                                          Store.u_timestamp := 5 |}];
                       Store.pastes := [] |};
              link := []; trace := [Store.InsertUser "ZYXWVUTSRQPONMLK" 5];
              console := []; rateLimitMap := ∅ |}).
  vm_compute. reflexivity.
Defined.

(** X27: a request that matches a route is never counted: whatever the handler
    answers, the limiter's map after the request is the map before it. *)
Theorem routed_request_keeps_rateLimitMap allowed req e w r resp w' :
  match_route req = Some r ->
  app allowed req e w = Some (resp, w') ->
  rateLimitMap w' = rateLimitMap w.
Proof.
  intros Hr H.
  rewrite (routed_request_bypasses_rateLimiter allowed req e w r Hr) in H.
  now apply handler_keeps_rateLimitMap in H.
Qed.

Lemma routed_request_keeps_rateLimitMap_witness :
  rateLimitMap
    {| db := db empty_world; link := [];
       trace := [Store.SelectPaste "NEVERCREATED0000"];
       console := [];
       rateLimitMap := {["10.0.0.7" := {| count := 3; lastRequestTime := 0 |}]} |}
  = rateLimitMap
      (set_rateLimitMap {["10.0.0.7" := {| count := 3; lastRequestTime := 0 |}]}
         empty_world).
Proof.
  apply (routed_request_keeps_rateLimitMap (fun _ r => r)
           {| ip := "10.0.0.7"; method := GET;
              path := ["READ-PASTE"; "NEVERCREATED0000"; ""]; json := JsonNull |}
           {| random := []; now := 7 |}
           (set_rateLimitMap {["10.0.0.7" := {| count := 3; lastRequestTime := 0 |}]}
              empty_world)
           (ReadPaste "NEVERCREATED0000")
           (respond 404 (Text "No paste with id NEVERCREATED0000 found"))).
  - reflexivity.
  - vm_compute. reflexivity.
Defined.

(** X28: a request that matches no route is the limiter's alone: when the
    limiter lets it through, nothing writes a response before
    [allowedMethods] completes it and the process is left as the limiter
    leaves it; when the limiter rejects it, the response that
    [allowedMethods] receives is the 429 and the process is unchanged. *)
Theorem unrouted_request_outcome allowed req e w :
  match_route req = None ->
  app allowed req e w
  = Some (if lets_through req e w
          then (allowed req unset, after_limiter req e w)
          else (allowed req (respond 429 (Text "You're being rate limited. Try again later")),
                w)).
Proof.
  intros Hr. unfold app. simpl. unfold routes. rewrite Hr.
  unfold allowedMethods, lets_through, after_limiter, rateLimiter. simpl.
  destruct (rateLimitMap w !! ip req) as [cd|]; simpl; [|reflexivity].
  destruct (now e >? lastRequestTime cd + RATE_LIMIT_WINDOW); simpl; [reflexivity|].
  destruct (count cd >? MAX_REQUESTS); reflexivity.
Qed.

Lemma unrouted_request_outcome_witness :
  let req := {| ip := "10.0.0.7"; method := GET; path := ["favicon.ico"];
                json := JsonNull |} in
  let e := {| random := []; now := 7 |} in
  app (fun _ r => r) req e empty_world
  = Some (if lets_through req e empty_world
          then (unset, after_limiter req e empty_world)
          else (respond 429 (Text "You're being rate limited. Try again later"),
                empty_world)).
Proof.
  intros req e.
  apply (unrouted_request_outcome (fun _ r => r) req e empty_world).
  reflexivity.
Defined.

(** ** Witnesses of earlier lemmas *)

Lemma window_passes_at_most_eleven_witness :
  let w := set_rateLimitMap {["10.0.0.7" := {| count := 11; lastRequestTime := 0 |}]}
             empty_world in
  (passed (hit "10.0.0.7" 20000
             :: map (hit "10.0.0.7")
                  [20001; 20002; 20003; 20004; 20005; 20006; 20007; 20008; 20009; 20010;
                   20011; 20012; 20013; 20014]%Z) w <= 11)%nat.
Proof.
  intros w.
  apply (window_passes_at_most_eleven "10.0.0.7" (hit "10.0.0.7" 20000)
           (map (hit "10.0.0.7")
              [20001; 20002; 20003; 20004; 20005; 20006; 20007; 20008; 20009; 20010;
               20011; 20012; 20013; 20014]) w).
  - vm_compute. reflexivity.
  - reflexivity.
  - repeat constructor; simpl; unfold RATE_LIMIT_WINDOW; lia.
Defined.

Lemma rejection_keeps_the_record_witness :
  let w := set_rateLimitMap {["10.0.0.7" := {| count := 11; lastRequestTime := 0 |}]}
             empty_world in
  after_limiter (fst (hit "10.0.0.7" 12)) (snd (hit "10.0.0.7" 12)) w = w
  /\ forall next response,
      rateLimiter (fst (hit "10.0.0.7" 12)) (snd (hit "10.0.0.7" 12)) next (response, w)
      = Some (respond 429 (Text "You're being rate limited. Try again later"), w).
Proof.
  intros w.
  apply (rejection_keeps_the_record (fst (hit "10.0.0.7" 12)) (snd (hit "10.0.0.7" 12)) w).
  vm_compute. reflexivity.
Defined.

Lemma twelfth_request_is_rejected_witness :
  fst (limiter_run
         (hit "10.0.0.7" 0 :: map (hit "10.0.0.7") [1; 2; 3; 4; 5; 6; 7; 8; 9; 10; 11])
         empty_world)
  = repeat true 11 ++ [false].
Proof.
  apply (twelfth_request_is_rejected "10.0.0.7" (hit "10.0.0.7" 0)
           (map (hit "10.0.0.7") [1; 2; 3; 4; 5; 6; 7; 8; 9; 10; 11]) empty_world).
  - reflexivity.
  - reflexivity.
  - reflexivity.
  - repeat constructor; simpl; unfold RATE_LIMIT_WINDOW; lia.
Defined.


Lemma create_paste_anonymous_succeeds_witness :
  let e := {| random := [map Z.of_nat (seq 0 45)]; now := 5 |} in
  exists w1,
    create_paste (Fields (Js.Str "hello") (Js.Str "text") Js.Null) e empty_world
    = Some (respond 200 (Text "ZYXWVUTSRQPONMLK"), w1)
    /\ Store.pastes (db w1)
       = Store.pastes (db empty_world)
         ++ [{| Store.p_id := "ZYXWVUTSRQPONMLK"; Store.p_content := "hello";
                Store.p_format := "text"; Store.p_timestamp := now e;
                Store.p_userid := None |}].
Proof.
  intros e.
  apply (create_paste_anonymous_succeeds "hello" "text" "text" Js.Null e empty_world
           "ZYXWVUTSRQPONMLK").
  - reflexivity.
  - vm_compute. reflexivity.
  - reflexivity.
  - reflexivity.
  - reflexivity.
  - reflexivity.
  - reflexivity.
Defined.

Lemma create_handlers_answer_400_on_store_failure_witness :
  let e := {| random := [map Z.of_nat (seq 0 45)]; now := 5 |} in
  let down := {| db := db empty_world; link := [false]; trace := [];
                 console := []; rateLimitMap := ∅ |} in
  (exists w', create_user e down
              = Some (respond 400
                        (Text "Couldn't create user for some reason, ask devs to check the logs"),
                      w'))
  /\ (exists w', create_paste (Fields (Js.Str "hello") (Js.Str "text") Js.Undefined) e down
                 = Some (respond 400
                           (Text "Couldn't create paste for some reason, ask devs to check the logs"),
                         w')).
Proof.
  intros e down.
  apply (create_handlers_answer_400_on_store_failure (Js.Str "hello") (Js.Str "text")
           Js.Undefined e down "ZYXWVUTSRQPONMLK" []).
  - vm_compute. reflexivity.
  - reflexivity.
  - reflexivity.
Defined.

(** ** The store and the router on particular inputs *)

(** An identifier followed by blanks finds the row that carries it, in the
    validator, in read-paste and as the owner in read-pastes. *)
Example trailing_blanks_do_not_count :
  let owner := "OWNER00000000001" in
  let paste := {| Store.p_id := "AAAAAAAAAAAAAAAA"; Store.p_content := "one";
                  Store.p_format := "text"; Store.p_timestamp := 1;
                  Store.p_userid := Some owner |} in
  let w := {| db := {| Store.users := [{| Store.u_id := owner; Store.u_timestamp := 0 |}];
                       Store.pastes := [paste] |};
              link := []; trace := []; console := []; rateLimitMap := ∅ |} in
  fst (validateUser "OWNER00000000001 " w) = true
  /\ fst (read_paste (Js.Str "AAAAAAAAAAAAAAAA ") w)
     = respond 200 (Rows (Store.Pastes [paste]))
  /\ fst (read_pastes (Js.Str "OWNER00000000001  ") w)
     = respond 200 (Rows (Store.Pastes [paste])).
Proof. repeat split. Qed.

(** A content with a NUL character is refused by the store: the handler
    answers 400 and writes nothing. *)
Example nul_is_refused :
  let e := {| random := [map Z.of_nat (seq 0 45)]; now := 5 |} in
  exists w',
    create_paste (Fields (Js.Str (String Ascii.zero "x")) (Js.Str "text") Js.Undefined)
      e empty_world
    = Some (respond 400
              (Text "Couldn't create paste for some reason, ask devs to check the logs"),
            w')
    /\ db w' = db empty_world.
Proof. intros e. eexists. split; [vm_compute; reflexivity | reflexivity]. Qed.

(** The router answers a route written in capitals or with a trailing slash;
    a second trailing slash, or an empty [:id], matches no route. *)
Example routes_ignore_case_and_one_slash :
  let get segments := {| ip := "10.0.0.7"; method := GET; path := segments;
                         json := JsonNull |} in
  match_route (get ["CREATE-USER"]) = Some CreateUser
  /\ match_route (get ["create-user"; ""]) = Some CreateUser
  /\ match_route (get ["Read-Paste"; "AbC"; ""]) = Some (ReadPaste "AbC")
  /\ match_route (get ["create-user"; ""; ""]) = None
  /\ match_route (get ["read-paste"; ""]) = None
  /\ match_route (get ["create-paste"]) = None.
Proof. repeat split. Qed.
